(** * Stealth payments: the proof of concept and the umbra-js utilities

    A shallow embedding of [poc.js] (the sender-side and recipient-side
    stealth derivations over secp256k1) and of the utilities exercised by
    [umbra-js/test/utils.test.ts], with the properties the specification
    states about them.

    JavaScript strings are [string], byte arrays ([Uint8Array], [Buffer]) are
    [list byte], a [BN] of bn.js is a [Z] that is not negative, a
    [BigNumber] of ethers is the record of its hexadecimal string, and a
    [throw new Error(msg)] is the [Throw msg] branch of [result]. *)

From Stdlib Require Import ZArith String Ascii List Lia Bool.
From Stdlib Require Import Strings.Byte.
From Stdlib Require Import Permutation Sorted.
Import ListNotations.

Local Open Scope string_scope.
Local Open Scope Z_scope.

(** ** Thrown errors *)

Inductive result (A : Type) : Type :=
| Ok (a : A)
| Throw (msg : string).
Arguments Ok {A} a.
Arguments Throw {A} msg.

Definition bind {A B : Type} (r : result A) (k : A -> result B) : result B :=
  match r with
  | Ok a => k a
  | Throw msg => Throw msg
  end.

Notation "x <- r ;; k" := (bind r (fun x => k))
  (at level 61, r at next level, right associativity).
Notation "' pat <- r ;; k" := (bind r (fun x => match x with pat => k end))
  (at level 61, pat pattern, r at next level, right associativity).

(** ** JavaScript strings *)

Module JsString.

(** [s.slice(n)]: the string without its first [n] characters. *)
Fixpoint sliceFrom (n : nat) (s : string) : string :=
  match n, s with
  | O, _ => s
  | S _, EmptyString => EmptyString
  | S k, String _ rest => sliceFrom k rest
  end.

(** [s.slice(0, n)]: the first [n] characters. *)
Fixpoint sliceTo (n : nat) (s : string) : string :=
  match n, s with
  | O, _ => EmptyString
  | S _, EmptyString => EmptyString
  | S k, String c rest => String c (sliceTo k rest)
  end.

Fixpoint zeros (k : nat) : string :=
  match k with
  | O => EmptyString
  | S k' => String "0" (zeros k')
  end.

(** The filler of [padStart]: [padString] repeated and cut to [k]
    characters; [cur] is what is left of the copy being emitted. *)
Fixpoint fillCycle (padString cur : string) (k : nat) : string :=
  match k with
  | O => EmptyString
  | S k' =>
    match cur with
    | String c rest => String c (fillCycle padString rest k')
    | EmptyString =>
      match padString with
      | String c rest => String c (fillCycle padString rest k')
      | EmptyString => EmptyString
      end
    end
  end.

(** [s.padStart(targetLength, padString)]. *)
Definition padStart (s : string) (targetLength : nat) (padString : string) : string :=
  if (targetLength <=? String.length s)%nat then s
  else fillCycle padString padString (targetLength - String.length s) ++ s.

(** [s.endsWith(suffix)], as a proposition. *)
Definition isSuffixOf (suffix s : string) : Prop :=
  exists front, s = front ++ suffix.

End JsString.
Import JsString.

(** ** poc.js, lines 19-27 *)

(** [function pad32ByteHex(hex) { return hex.padStart(64, 0); }]: the number
    [0] is turned into the string ["0"] by [padStart]. *)
Definition pad32ByteHex (hex : string) : string := padStart hex 64 "0".

(** ** Hexadecimal digits, as bn.js reads and writes them *)

Module Hex.

Definition hexDigit (d : Z) : ascii :=
  match d with
  | 0 => "0" | 1 => "1" | 2 => "2" | 3 => "3" | 4 => "4" | 5 => "5"
  | 6 => "6" | 7 => "7" | 8 => "8" | 9 => "9" | 10 => "a" | 11 => "b"
  | 12 => "c" | 13 => "d" | 14 => "e" | _ => "f"
  end%char.

(** [parseHex4Bits]: digits, then upper case, then lower case letters. *)
Definition hexValue (c : ascii) : option Z :=
  let code := Z.of_N (N_of_ascii c) in
  if (48 <=? code) && (code <=? 57) then Some (code - 48)
  else if (65 <=? code) && (code <=? 70) then Some (code - 55)
  else if (97 <=? code) && (code <=? 102) then Some (code - 87)
  else None.

(** The [n] low hexadecimal digits of [v], most significant first, put in
    front of [acc]. *)
Fixpoint digitsBE (n : nat) (v : Z) (acc : string) : string :=
  match n with
  | O => acc
  | S k => digitsBE k (v / 16) (String (hexDigit (v mod 16)) acc)
  end.

(** Number of hexadecimal digits of [v] without leading zeros; zero has
    the one digit [0]. *)
Definition hexLen (v : Z) : nat :=
  if v <=? 0 then 1%nat else S (Z.to_nat (Z.log2 v / 4)).

(** [bn.toString('hex')] (also [bn.toString(16)]): no padding. *)
Definition toString16 (v : Z) : string := digitsBE (hexLen v) v "".

Fixpoint parseAcc (s : string) (acc : Z) : result Z :=
  match s with
  | EmptyString => Ok acc
  | String c rest =>
    match hexValue c with
    | Some d => parseAcc rest (16 * acc + d)
    | None => Throw "Invalid character"
    end
  end.

(** [new BN(s, 16)] on a string of hexadecimal digits.  bn.js 4 does not
    look at what it is given and builds a number from any character; the
    strings of the script are digits, and [Throw] here marks a string that
    is not, which nothing below takes for an error of the script. *)
Definition parse16 (s : string) : result Z := parseAcc s 0.

Fixpoint allHex (s : string) : bool :=
  match s with
  | EmptyString => true
  | String c rest =>
    match hexValue c with Some _ => allHex rest | None => false end
  end.

End Hex.
Import Hex.

(** ** Byte arrays *)

Module Bytes.

Definition byteZ (b : byte) : Z := Z.of_N (Byte.to_N b).

Definition zByte (z : Z) : byte :=
  match Byte.of_N (Z.to_N (z mod 256)) with
  | Some b => b
  | None => x00
  end.

(** The unsigned integer a byte array denotes, most significant byte
    first. *)
Definition beValue (bs : list byte) : Z :=
  fold_left (fun acc b => 256 * acc + byteZ b) bs 0.

(** The two hexadecimal digits of a byte, in front of [rest]. *)
Definition byteHex (b : byte) (rest : string) : string :=
  String (hexDigit (byteZ b / 16)) (String (hexDigit (byteZ b mod 16)) rest).

End Bytes.
Import Bytes.

(** ** ethers v5: [utils.hexlify] and [BigNumber]

    A [BigNumber] is the record of its normalised hexadecimal string
    [_hex]; arithmetic goes through bn.js ([toBN]) and back
    ([toBigNumber]).  Only non-negative numbers occur in [poc.js], and the
    branches for a leading minus sign are left out. *)

Module utils.

(** [utils.hexlify(Uint8Array)]: ["0x"] and two digits per byte. *)
Definition hexlify (arr : list byte) : string :=
  "0x" ++ fold_right byteHex "" arr.

(** [utils.isHexString(value)]: ["0x"] followed by hexadecimal digits. *)
Definition isHexString (value : string) : bool :=
  String.eqb (sliceTo 2 value) "0x" && allHex (sliceFrom 2 value).

(** [utils.arrayify(hexString)]: the bytes of a ["0x"] string with an even
    number of digits. *)
Fixpoint hexPairs (digits : string) : list byte :=
  match digits with
  | String a (String b rest) =>
    match hexValue a, hexValue b with
    | Some h, Some l => zByte (16 * h + l) :: hexPairs rest
    | _, _ => []
    end
  | _ => []
  end.

Definition arrayify (value : string) : list byte := hexPairs (sliceFrom 2 value).

End utils.

Module BigNumber.

Record t : Type := mk { _hex : string }.

(** The loop [while (value.length > 4 && value.substring(0, 4) === "0x00")
    value = "0x" + value.substring(4)] on the digits after ["0x"]. *)
Fixpoint trimZeroBytes (digits : string) : string :=
  match digits with
  | String a (String b more) =>
    if Ascii.eqb a "0" && Ascii.eqb b "0" then
      match more with
      | EmptyString => digits
      | String _ _ => trimZeroBytes more
      end
    else digits
  | _ => digits
  end.

(** [toHex(value)] of bignumber.ts on a string: add the prefix when it is
    missing, turn the empty number into ["0x00"], make the length even,
    trim leading zero bytes. *)
Definition toHex (value : string) : string :=
  let value := if String.eqb (sliceTo 2 value) "0x" then value else "0x" ++ value in
  if String.eqb value "0x" then "0x00"
  else
    let value :=
      if Nat.odd (String.length value) then "0x0" ++ sliceFrom 2 value else value in
    "0x" ++ trimZeroBytes (sliceFrom 2 value).

(** The test [value.match(/^-?0x[0-9a-f]+$/i)] of [BigNumber.from], without
    the sign: ["0x"] and at least one hexadecimal digit. *)
Definition isHexNumber (value : string) : bool :=
  String.eqb (sliceTo 2 value) "0x"
  && negb (String.eqb (sliceFrom 2 value) "")
  && allHex (sliceFrom 2 value).

(** [BigNumber.from(value)] on a string: a hexadecimal number is
    normalised by [toHex].  Every string the script passes starts with
    ["0x"], so the branch of decimal strings is left out and anything else
    is refused as ethers does. *)
Definition from (value : string) : result t :=
  if isHexNumber value then Ok (mk (toHex value))
  else Throw "invalid BigNumber string".

(** [BigNumber.from(Uint8Array)]: through [hexlify]. *)
Definition fromBytes (arr : list byte) : result t := from (utils.hexlify arr).

Definition toHexString (b : t) : string := _hex b.

(** [toBN(value)]: [new BN(hex.substring(2), 16)]. *)
Definition toBN (b : t) : result Z := parse16 (sliceFrom 2 (_hex b)).

(** [toBigNumber(bn)]: [BigNumber.from(toHex(bn))], where [toHex] of a
    [BN] is [toHex(bn.toString(16))]. *)
Definition toBigNumber (v : Z) : result t := from (toHex (toString16 v)).

(** [a.mul(b)]: [toBigNumber(toBN(a).mul(toBN(b)))]. *)
Definition mul (a b : t) : result t :=
  x <- toBN a ;; y <- toBN b ;; toBigNumber (x * y).

(** [a.mod(other)] with [other] a hexadecimal string:
    [toBigNumber(toBN(a).umod(toBN(other)))]; bn.js asserts that the modulus
    is not zero. *)
Definition mod_ (a : t) (other : string) : result t :=
  m <- from other ;;
  value <- toBN m ;;
  x <- toBN a ;;
  if value =? 0 then Throw "Assertion failed"
  else toBigNumber (x mod value).

End BigNumber.

(** ** elliptic: [const ec = new EC("secp256k1")]

    Points are affine with coordinates reduced modulo [p] (elliptic keeps
    them in a reduction context) or the point at infinity
    ([curve.point(null, null)]).  [add] and [dbl] follow [Point.prototype.add]
    and [Point.prototype.dbl] of [curve/short.js].

    [mulBN] is binary double-and-add.  elliptic multiplies with the
    endomorphism of the curve and a windowed non-adjacent form; on a point
    of the curve both give the same multiple, the one of the group.  On
    coordinates that do not satisfy the curve equation the two differ, and
    [mulBN] is not elliptic's result there: what is stated about a product
    either holds of any point or assumes [validate].  The script multiplies
    the generator and the key that line 49 has found equal to the
    recovered one. *)

Module ec.

Definition p : Z := 0xFFFFFFFFFFFFFFFFFFFFFFFFFFFFFFFFFFFFFFFFFFFFFFFFFFFFFFFEFFFFFC2F.
Definition n : Z := 0xFFFFFFFFFFFFFFFFFFFFFFFFFFFFFFFEBAAEDCE6AF48A03BBFD25E8CD0364141.
Definition a : Z := 0.
Definition b : Z := 7.

Inductive Point : Type :=
| Infinity
| Affine (x y : Z).

(** *** The reduction context: bn.js [Red] with the prime [k256]

    Operands are in [0, p).  [p = 2 ^ 256 - K]. *)

Definition K : Z := 0x1000003d1.
Definition mask256 : Z :=
  0xFFFFFFFFFFFFFFFFFFFFFFFFFFFFFFFFFFFFFFFFFFFFFFFFFFFFFFFFFFFFFFFF.

(** The loop of [MPrime.prototype.ireduce]: [r = HI * K + LO] while [r] has
    more than 256 bits. *)
Fixpoint ireduceLoop (fuel : nat) (r : Z) : Z :=
  match fuel with
  | O => r
  | S fuel' =>
    let r' := Z.shiftr r 256 * K + Z.land r mask256 in
    if Z.shiftr r' 256 =? 0 then r' else ireduceLoop fuel' r'
  end.

(** [ireduce(num)] for [num] below [p * p]: the loop, and one subtraction
    of [p] when the result is not below it. *)
Definition ireduce (num : Z) : Z :=
  let r := ireduceLoop 8 num in
  if r <? p then r else r - p.

Definition redAdd (u v : Z) : Z :=
  let res := u + v in if p <=? res then res - p else res.
Definition redSub (u v : Z) : Z :=
  let res := u - v in if res <? 0 then res + p else res.
Definition redNeg (u : Z) : Z := if u =? 0 then u else p - u.
Definition redMul (u v : Z) : Z := ireduce (u * v).
Definition redSqr (u : Z) : Z := redMul u u.

(** The loop of [BN.prototype._invmp], one bit at a time: [a] and [b] are
    halved while even, each with its cofactor ([delta = p] is added to an
    odd cofactor first), and the smaller is subtracted from the larger. *)
Fixpoint invmpLoop (fuel : nat) (a b x1 x2 : Z) : Z :=
  match fuel with
  | O => 0
  | S fuel' =>
    if (a <=? 1) || (b <=? 1) then (if a =? 1 then x1 else x2)
    else if Z.even a then
      invmpLoop fuel' (Z.shiftr a 1) b (Z.shiftr (if Z.odd x1 then x1 + p else x1) 1) x2
    else if Z.even b then
      invmpLoop fuel' a (Z.shiftr b 1) x1 (Z.shiftr (if Z.odd x2 then x2 + p else x2) 1)
    else if b <=? a then invmpLoop fuel' (a - b) b (x1 - x2) x2
    else invmpLoop fuel' a (b - a) x1 (x2 - x1)
  end.

(** [u.redInvm()]: the inverse of [u] modulo [p], in [0, p). *)
Definition redInvm (u : Z) : Z := invmpLoop 2048 u p 1 0 mod p.

(** [curve.point(x, y)]. *)
Definition point (x y : Z) : Point := Affine (x mod p) (y mod p).

Definition g : Point :=
  Affine 0x79BE667EF9DCBBAC55A06295CE870B07029BFCDB2DCE28D959F2815B16F81798
         0x483ADA7726A3C4655DA4FBFC0E1108A8FD17B448A68554199C47D08FFB10D4B8.

Definition eq (P Q : Point) : bool :=
  match P, Q with
  | Infinity, Infinity => true
  | Affine x1 y1, Affine x2 y2 => (x1 =? x2) && (y1 =? y2)
  | _, _ => false
  end.

Definition neg (P : Point) : Point :=
  match P with
  | Infinity => Infinity
  | Affine x y => Affine x (redNeg y)
  end.

Definition dbl (P : Point) : Point :=
  match P with
  | Infinity => Infinity
  | Affine x y =>
    let ys1 := redAdd y y in
    if ys1 =? 0 then Infinity
    else
      let x2 := redSqr x in
      let dyinv := redInvm ys1 in
      let c := redMul (redAdd (redAdd (redAdd x2 x2) x2) a) dyinv in
      let nx := redSub (redSqr c) (redAdd x x) in
      let ny := redSub (redMul c (redSub x nx)) y in
      Affine nx ny
  end.

Definition add (P Q : Point) : Point :=
  match P, Q with
  | Infinity, _ => Q
  | _, Infinity => P
  | Affine x1 y1, Affine x2 y2 =>
    if eq P Q then dbl P
    else if eq (neg P) Q then Infinity
    else if x1 =? x2 then Infinity
    else
      let c := redSub y1 y2 in
      let c := if c =? 0 then c else redMul c (redInvm (redSub x1 x2)) in
      let nx := redSub (redSub (redSqr c) x1) x2 in
      let ny := redSub (redMul c (redSub x1 nx)) y1 in
      Affine nx ny
  end.

Fixpoint mulPos (P : Point) (k : positive) : Point :=
  match k with
  | xH => P
  | xO k' => dbl (mulPos P k')
  | xI k' => add (dbl (mulPos P k')) P
  end.

(** [P.mul(k)] with [k] a [BN]. *)
Definition mulBN (P : Point) (k : Z) : Point :=
  match k with
  | Z0 => Infinity
  | Zpos k' => mulPos P k'
  | Zneg k' => neg (mulPos P k')
  end.

(** [P.mul(k)] with [k] a string: [k = new BN(k, 16)] first. *)
Definition mul (P : Point) (k : string) : result Point :=
  kv <- parse16 k ;; Ok (mulBN P kv).

(** [P.getX()] and [P.getY()]; the point at infinity has [null]
    coordinates, and reading them is a [TypeError]. *)
Definition getX (P : Point) : result Z :=
  match P with
  | Affine x _ => Ok x
  | Infinity => Throw "TypeError: Cannot read properties of null"
  end.

Definition getY (P : Point) : result Z :=
  match P with
  | Affine _ y => Ok y
  | Infinity => Throw "TypeError: Cannot read properties of null"
  end.

(** [curve.validate(point)]: the curve equation [y^2 = x^3 + a x + b]. *)
Definition validate (P : Point) : bool :=
  match P with
  | Infinity => true
  | Affine x y =>
    let rhs := redAdd (redAdd (redMul (redSqr x) x) (redMul a x)) b in
    redSub (redSqr y) rhs =? 0
  end.

(** A key pair holds a private scalar, a public point, or both. *)
Record KeyPair : Type := mkKeyPair { priv : option Z; pub : option Point }.

(** [ec.keyFromPublic({ x, y })].  [KeyPair.prototype._importPublic]
    tests [key.x || key.y]: with two empty strings it falls through to
    [decodePoint], which finds no encoded point; with one of them it
    asserts that both are there; and then it builds the point from them
    with no further check. *)
Definition keyFromPublic (x y : string) : result KeyPair :=
  if String.eqb x "" && String.eqb y "" then Throw "Unknown point format"
  else if String.eqb x "" || String.eqb y "" then Throw "Need both x and y coordinate"
  else
    xv <- parse16 x ;;
    yv <- parse16 y ;;
    Ok (mkKeyPair None (Some (point xv yv))).

(** [ec.keyFromPrivate(hex)] for a key of at least one digit (the key of
    a wallet has 64; elliptic imports nothing from an empty string): the
    scalar is reduced modulo [n]. *)
Definition keyFromPrivate (hex : string) : result KeyPair :=
  d <- parse16 hex ;; Ok (mkKeyPair (Some (d mod n)) None).

(** [key.getPublic()]: the stored point, or [g.mul(priv)]. *)
Definition getPublic (key : KeyPair) : result Point :=
  match pub key, priv key with
  | Some P, _ => Ok P
  | None, Some d => Ok (mulBN g d)
  | None, None => Throw "TypeError: Cannot read properties of null"
  end.

(** [key.getPrivate()]. *)
Definition getPrivate (key : KeyPair) : result Z :=
  match priv key with
  | Some d => Ok d
  | None => Throw "TypeError: Cannot read properties of null"
  end.

End ec.

(** ** buffer: [new Buffer(s, 'hex')], [slice], [toString('hex')] *)

Module Buffer.

(** [new Buffer(s, 'hex')]: one byte per pair of digits, [parseInt(pair,
    16)] each; the buffer ends at the first pair that does not start
    with a digit, and a last character without a partner is dropped. *)
Fixpoint fromHex (s : string) : list byte :=
  match s with
  | String c1 (String c2 rest) =>
    match hexValue c1, hexValue c2 with
    | Some h, Some l => zByte (16 * h + l) :: fromHex rest
    | Some h, None => zByte h :: fromHex rest
    | None, _ => []
    end
  | _ => []
  end.

(** [buf.toString('hex')]. *)
Definition toHex (buf : list byte) : string := fold_right byteHex "" buf.

(** [buf.slice(-k)]: the last [k] bytes. *)
Definition sliceLast (k : nat) (buf : list byte) : list byte :=
  skipn (List.length buf - k) buf.

End Buffer.

(** ** js-sha3: [keccak256]

    Keccak-f[1600] on 25 lanes of 64 bits (lane [(x, y)] at index
    [x + 5 y]), rate 136 bytes, padding [0x01 .. 0x80], 32 bytes of output
    written as 64 hexadecimal digits. *)

Module Keccak.

Definition mask64 : Z := 0xFFFFFFFFFFFFFFFF.

Definition rotl64 (x k : Z) : Z :=
  Z.lor (Z.land (Z.shiftl x k) mask64) (Z.shiftr x (64 - k)).

Definition RC : list Z :=
  [ 0x0000000000000001; 0x0000000000008082; 0x800000000000808A;
    0x8000000080008000; 0x000000000000808B; 0x0000000080000001;
    0x8000000080008081; 0x8000000000008009; 0x000000000000008A;
    0x0000000000000088; 0x0000000080008009; 0x000000008000000A;
    0x000000008000808B; 0x800000000000008B; 0x8000000000008089;
    0x8000000000008003; 0x8000000000008002; 0x8000000000000080;
    0x000000000000800A; 0x800000008000000A; 0x8000000080008081;
    0x8000000000008080; 0x0000000080000001; 0x8000000080008008 ].

(** Rotation offsets, indexed like the lanes. *)
Definition rotc : list Z :=
  [  0;  1; 62; 28; 27;
    36; 44;  6; 55; 20;
     3; 10; 43; 25; 39;
    41; 45; 15; 21;  8;
    18;  2; 61; 56; 14 ].

Definition lane (A : list Z) (i : nat) : Z := nth i A 0.

Definition indices : list nat := seq 0 25.

Definition theta (A : list Z) : list Z :=
  let C := map (fun x =>
             Z.lxor (lane A x) (Z.lxor (lane A (x + 5)) (Z.lxor (lane A (x + 10))
               (Z.lxor (lane A (x + 15)) (lane A (x + 20)))))) (seq 0 5) in
  let D := map (fun x =>
             Z.lxor (lane C ((x + 4) mod 5)) (rotl64 (lane C ((x + 1) mod 5)) 1))
             (seq 0 5) in
  map (fun i => Z.lxor (lane A i) (lane D (i mod 5))) indices.

(** Lane [(x, y)] goes, rotated, to lane [(y, 2 x + 3 y)]; read backwards:
    the lane at [(X, Y)] comes from [x = (X + 3 Y) mod 5], [y = X]. *)
Definition rhoPi (A : list Z) : list Z :=
  map (fun i =>
         let X := (i mod 5)%nat in
         let Y := (i / 5)%nat in
         let src := (((X + 3 * Y) mod 5) + 5 * X)%nat in
         rotl64 (lane A src) (lane rotc src)) indices.

Definition chi (B : list Z) : list Z :=
  map (fun i =>
         let x := (i mod 5)%nat in
         let row := (5 * (i / 5))%nat in
         Z.lxor (lane B i)
                (Z.land (Z.lxor (lane B ((x + 1) mod 5 + row)) mask64)
                        (lane B ((x + 2) mod 5 + row)))) indices.

Definition iota (rc : Z) (A : list Z) : list Z :=
  match A with
  | [] => []
  | a0 :: rest => Z.lxor a0 rc :: rest
  end.

Definition round (A : list Z) (rc : Z) : list Z := iota rc (chi (rhoPi (theta A))).

Definition f1600 (A : list Z) : list Z := fold_left round RC A.

(** A lane from eight bytes, least significant first. *)
Definition laneOfBytes (bs : list byte) : Z :=
  fold_right (fun b acc => byteZ b + 256 * acc) 0 bs.

Fixpoint bytesOfLane (k : nat) (v : Z) : list byte :=
  match k with
  | O => []
  | S k' => zByte v :: bytesOfLane k' (v / 256)
  end.

Definition rate : nat := 136.

(** The message with the padding of Keccak: [0x01], zeros up to a
    multiple of the rate, and [0x80] added to the last byte. *)
Definition pad (msg : list byte) : list byte :=
  let fill := (rate - 1 - List.length msg mod rate)%nat in
  match fill with
  | O => (msg ++ [x81])%list
  | S k => (msg ++ x01 :: repeat x00 k ++ [x80])%list
  end.

Fixpoint lanesOf (k : nat) (block : list byte) : list Z :=
  match k with
  | O => []
  | S k' => laneOfBytes (firstn 8 block) :: lanesOf k' (skipn 8 block)
  end.

Definition absorbBlock (A : list Z) (block : list byte) : list Z :=
  let L := lanesOf 17 block in
  f1600 (map (fun i => Z.lxor (lane A i) (lane L i)) indices).

Fixpoint absorb (blocks : nat) (A : list Z) (msg : list byte) : list Z :=
  match blocks with
  | O => A
  | S k => absorb k (absorbBlock A (firstn rate msg)) (skipn rate msg)
  end.

Definition digest (msg : list byte) : list byte :=
  let padded := pad msg in
  let A := absorb (List.length padded / rate) (repeat 0 25) padded in
  flat_map (bytesOfLane 8) (firstn 4 A).

(** [keccak256(buffer)]: the digest in hexadecimal. *)
Definition keccak256 (msg : list byte) : string := Buffer.toHex (digest msg).

End Keccak.

(** ** poc.js, the script

    The script draws a random [receiver] wallet and a random array; here
    they are the arguments.  Each [const] of the script is a definition of
    the same name, a function of what it is computed from. *)

(** An ethers wallet, as far as the script reads it: [privateKey] is ["0x"]
    and 64 digits, [publicKey] is ["0x04"] and the two coordinates of 64
    digits each. *)
Record Wallet : Type := mkWallet { privateKey : string; publicKey : string }.

(** *** Step 1: recover the recipient's public key (lines 41-52) *)

Section Step1.

(** [utils.hashMessage] and [utils.recoverPublicKey] of ethers. *)
Variable hashMessage : string -> string.
Variable recoverPublicKey : list byte -> string -> string.

Definition message : string := "I love Umbra!".

Definition recoveredPublicKey (receiver : Wallet) (signature : string) : result string :=
  let messageHash := hashMessage message in
  let messageHashBytes := utils.arrayify messageHash in
  let recovered := recoverPublicKey messageHashBytes signature in
  if negb (String.eqb recovered (publicKey receiver))
  then Throw "Recipient's public key was not properly recovered"
  else Ok recovered.

End Step1.

(** *** Step 3: the random value (lines 65-69) *)

(** [ethers.BigNumber.from(randomArray).toHexString().slice(2)]. *)
Definition randomValue (randomArray : list byte) : result string :=
  bn <- BigNumber.fromBytes randomArray ;;
  Ok (sliceFrom 2 (BigNumber.toHexString bn)).

(** *** Step 5: the sender computes the receiving address (lines 89-116) *)

Definition receiverPublicKey (receiver : Wallet) : string :=
  sliceFrom 4 (publicKey receiver).
Definition receiverPublicKeyX (receiver : Wallet) : string :=
  sliceTo 64 (receiverPublicKey receiver).
Definition receiverPublicKeyY (receiver : Wallet) : string :=
  sliceFrom 64 (receiverPublicKey receiver).

Definition receiverPublicKeyEC (receiver : Wallet) : result ec.KeyPair :=
  if negb (String.eqb (receiverPublicKey receiver)
                      (receiverPublicKeyX receiver ++ receiverPublicKeyY receiver))
  then Throw "receiver's public key coordinates were incorrectly generated"
  else ec.keyFromPublic (receiverPublicKeyX receiver) (receiverPublicKeyY receiver).

Definition stealthPublicKeyEC (receiver : Wallet) (randomValue : string) : result ec.Point :=
  key <- receiverPublicKeyEC receiver ;;
  P <- ec.getPublic key ;;
  ec.mul P randomValue.

Definition stealthPublicKey (receiver : Wallet) (randomValue : string) : result string :=
  stealthPoint <- stealthPublicKeyEC receiver randomValue ;;
  x <- ec.getX stealthPoint ;;
  y <- ec.getY stealthPoint ;;
  let stealthPublicKeyX := pad32ByteHex (toString16 x) in
  let stealthPublicKeyY := pad32ByteHex (toString16 y) in
  Ok (stealthPublicKeyX ++ stealthPublicKeyY).

(** Lines 112-116 and again 169-173: hash the key, keep the last 20 bytes
    of the hash. *)
Definition addressOfKey (key : string) : string :=
  let hash := Keccak.keccak256 (Buffer.fromHex key) in
  let addressBuffer := Buffer.fromHex hash in
  "0x" ++ Buffer.toHex (Buffer.sliceLast 20 addressBuffer).

Definition stealthAddress (receiver : Wallet) (randomValue : string) : result string :=
  key <- stealthPublicKey receiver randomValue ;;
  Ok (addressOfKey key).

(** *** Step 6: the recipient computes the private key (lines 126-173) *)

Definition receiverPrivateKeyEC (receiver : Wallet) : result ec.KeyPair :=
  ec.keyFromPrivate (sliceFrom 2 (privateKey receiver)).

(** Lines 131-143: the public point of the private key against the
    coordinates taken from the published key. *)
Definition checkPublicKeys (receiver : Wallet) : result unit :=
  key <- receiverPrivateKeyEC receiver ;;
  P <- ec.getPublic key ;;
  x <- ec.getX P ;;
  y <- ec.getY P ;;
  if negb (String.eqb (receiverPublicKeyX receiver) (pad32ByteHex (toString16 x)))
     || negb (String.eqb (receiverPublicKeyY receiver) (pad32ByteHex (toString16 y)))
  then Throw "Public keys of the two elliptic instances do not match"
  else Ok tt.

(** Lines 148-152: the product of the two big numbers, in hexadecimal. *)
Definition stealthPrivateKeyFull (receiver : Wallet) (randomValue : string)
  : result string :=
  key <- receiverPrivateKeyEC receiver ;;
  d <- ec.getPrivate key ;;
  randomValueBN <- BigNumber.from ("0x" ++ randomValue) ;;
  receiverPrivateKeyBN <- BigNumber.from ("0x" ++ toString16 d) ;;
  product <- BigNumber.mul receiverPrivateKeyBN randomValueBN ;;
  Ok (sliceFrom 2 (BigNumber.toHexString product)).

(** Lines 156-157: the product modulo the order of the curve. *)
Definition stealthPrivateKey (receiver : Wallet) (randomValue : string)
  : result BigNumber.t :=
  full <- stealthPrivateKeyFull receiver randomValue ;;
  stealthPrivateKeyBN <- BigNumber.from ("0x" ++ full) ;;
  BigNumber.mod_ stealthPrivateKeyBN ("0x" ++ toString16 ec.n).

(** Lines 161-166: the coordinates are concatenated as [toString('hex')]
    gives them. *)
Definition stealthPublicKey2 (stealthPrivateKey : BigNumber.t) : result string :=
  XY2 <- ec.mul ec.g (sliceFrom 2 (BigNumber.toHexString stealthPrivateKey)) ;;
  x <- ec.getX XY2 ;;
  y <- ec.getY XY2 ;;
  let stealthPublicKeyX2 := toString16 x in
  let stealthPublicKeyY2 := toString16 y in
  Ok (stealthPublicKeyX2 ++ stealthPublicKeyY2).

Definition stealthAddress2 (stealthPrivateKey : BigNumber.t) : result string :=
  key <- stealthPublicKey2 stealthPrivateKey ;;
  Ok (addressOfKey key).

(** Step 6 in the order of the script: the check of the keys, the private
    key, the address. *)
Definition step6 (receiver : Wallet) (randomValue : string)
  : result (BigNumber.t * string) :=
  _ <- checkPublicKeys receiver ;;
  key <- stealthPrivateKey receiver randomValue ;;
  address2 <- stealthAddress2 key ;;
  Ok (key, address2).

(** Line 177: [new ethers.Wallet(stealthPrivateKey)].  The signing key
    of ethers 5 is made from [hexlify] of the big number, which is its
    [toHexString()], and refuses a key whose [hexDataLength] is not 32.
    The address of the wallet is only compared in the two logs of lines
    178-179. *)
Definition stealthWallet (stealthPrivateKey : BigNumber.t) : result string :=
  let privateKey := BigNumber.toHexString stealthPrivateKey in
  if negb (String.length privateKey =? 66)%nat
  then Throw "invalid private key"
  else Ok privateKey.

(** Lines 181-183. *)
Definition checkStealthAddresses (stealthAddress stealthAddress2 : string) : result unit :=
  if negb (String.eqb stealthAddress stealthAddress2)
  then Throw "Stealth addresses do not match"
  else Ok tt.

(** Steps 3, 5 and 6, the wallet of line 177 and the final comparison,
    from the receiver's wallet and the sender's random array. *)
Definition stealthRoundTrip (receiver : Wallet) (randomArray : list byte)
  : result (string * BigNumber.t) :=
  r <- randomValue randomArray ;;
  address <- stealthAddress receiver r ;;
  '(key, address2) <- step6 receiver r ;;
  _ <- stealthWallet key ;;
  _ <- checkStealthAddresses address address2 ;;
  Ok (address, key).

(** *** The script, from step 1 *)

Section Script.

Variable hashMessage : string -> string.
Variable recoverPublicKey : list byte -> string -> string.


End Script.

(** The names the specification gives to the errors of the script. *)
Definition RecoveryMismatch : string := "Recipient's public key was not properly recovered".
Definition KeyMismatch : string := "Public keys of the two elliptic instances do not match".

(** ** umbra-js utilities

    [src/utils/utils.ts] is not part of the sources at hand; only its test
    file is.  The functions below follow the specification (sections 4.1,
    4.4 and 4.5) and are run on the inputs of [test/utils.test.ts]. *)

Module Resolver.

(** Modelled from the spec: the [options] of [lookupRecipient] (absent),
    section 4.4. *)
Record Options : Type :=
  mkOptions { advanced : bool; supportPubKey : bool; supportTxHash : bool }.

(** [lookupRecipient(id, provider)] with no options. *)
Definition defaultOptions : Options := mkOptions false false false.

(** Modelled from the spec: the [PublicKeyPair] of section 3, which
    [lookupRecipient] (absent) returns. *)
Record PublicKeyPair : Type :=
  mkKeys { spendingPublicKey : string; viewingPublicKey : string }.

(** Modelled from the spec: the errors of section 7 that [lookupRecipient]
    (absent) fails with; [NotRegistered] names the address, with the words
    of the test of line 237. *)
Definition PointNotOnCurve : string := "PointNotOnCurve".
Definition UnsupportedIdentifier : string := "UnsupportedIdentifier".
Definition IdentifierNotResolved : string := "IdentifierNotResolved".
Definition NotRegistered (address : string) : string :=
  "Address " ++ address ++
  " has not registered stealth keys. Please ask them to setup their Umbra account".

(** Modelled from the spec: the tagged variant [Identifier] of section 3
    (a name and a chain address are told apart by the name service, so
    they share a variant here). *)
Inductive Identifier : Type :=
| RawPublicKey (key : string)
| TransactionHash (hash : string)
| AddressOrName (name : string).

(** Modelled from the spec: the encodings of section 6, which
    [lookupRecipient] (absent) parses its identifier with: a public key is
    ["0x04"] and 128 digits, a transaction hash is ["0x"] and 64 digits. *)
Definition parseIdentifier (identifier : string) : Identifier :=
  if utils.isHexString identifier
     && (String.length identifier =? 132)%nat
     && String.eqb (sliceTo 4 identifier) "0x04"
  then RawPublicKey identifier
  else if utils.isHexString identifier && (String.length identifier =? 66)%nat
  then TransactionHash identifier
  else AddressOrName identifier.

(** The curve equation of secp256k1 on two coordinates. *)
Definition onCurve (x y : Z) : bool :=
  (y * y) mod ec.p =? (x * x * x + ec.a * x + ec.b) mod ec.p.

(** Modelled from the spec: [pointFromPublicKey] of section 4.1 (absent),
    which splits an uncompressed key into X and Y and fails with
    [PointNotOnCurve] when they do not satisfy the curve equation. *)
Definition pointFromPublicKey (pubKeyHex : string) : result ec.Point :=
  x <- parse16 (sliceTo 64 (sliceFrom 4 pubKeyHex)) ;;
  y <- parse16 (sliceFrom 64 (sliceFrom 4 pubKeyHex)) ;;
  if onCurve x y then Ok (ec.Affine x y) else Throw PointNotOnCurve.

Section Collaborators.

(** The key recovery of section 4.2, the name service, the transaction
    history of section 4.5 and the registry, all behind the provider. *)
Variable recoverPublicKeyFromTransaction : string -> result string.
Variable resolveAddress : string -> option string.
Variable getSentTransaction : string -> result string.
Variable registryLookup : string -> option PublicKeyPair.

(** Modelled from the spec: [lookupRecipient] of section 4.4 (absent;
    only its tests are at hand). *)
Definition lookupRecipient (identifier : string) (options : Options)
  : result PublicKeyPair :=
  match parseIdentifier identifier with
  | RawPublicKey key =>
    if supportPubKey options then
      _ <- pointFromPublicKey key ;;
      Ok (mkKeys key key)
    else Throw UnsupportedIdentifier
  | TransactionHash hash =>
    if supportTxHash options then
      key <- recoverPublicKeyFromTransaction hash ;;
      Ok (mkKeys key key)
    else Throw UnsupportedIdentifier
  | AddressOrName name =>
    match resolveAddress name with
    | None => Throw IdentifierNotResolved
    | Some address =>
      if advanced options then
        txHash <- getSentTransaction address ;;
        key <- recoverPublicKeyFromTransaction txHash ;;
        Ok (mkKeys key key)
      else
        match registryLookup address with
        | Some keys => Ok keys
        | None => Throw (NotRegistered address)
        end
    end
  end.

End Collaborators.

(** The keys of [test/utils.test.ts], lines 15 and 27. *)
Definition publicKey : string :=
  "0x04458465db23fe07d148c8c9078d8b67497998a66f4f2aa479973a9cbaaf8b5a96e6ba166a389b8f794b68010849b64b91343e72c7fa4cfcc178607c4b1d4870ed".

End Resolver.

Module Scanner.

Section Events.

(** The fields of an event other than its block number. *)
Variable Payload : Type.

(** Modelled from the spec: the [AnnouncementEvent] of section 3, the
    argument of [sortStealthKeyLogs] (absent). *)
Record AnnouncementEvent : Type := mkEvent { blockNumber : Z; payload : Payload }.

(** Puts [e] in front of the first event whose block number is not
    smaller: [e] stays before the events of its own block. *)
Fixpoint insertLog (e : AnnouncementEvent) (sorted : list AnnouncementEvent)
  : list AnnouncementEvent :=
  match sorted with
  | [] => [e]
  | e' :: rest =>
    if blockNumber e <=? blockNumber e' then e :: sorted
    else e' :: insertLog e rest
  end.

(** Modelled from the spec: [sortStealthKeyLogs] of section 4.5 (absent;
    only its test is at hand), a stable sort by ascending block
    number. *)
Definition sortStealthKeyLogs (events : list AnnouncementEvent)
  : list AnnouncementEvent :=
  fold_right insertLog [] events.

(** The events of block [b], in the order of the list. *)
Definition ofBlock (b : Z) (events : list AnnouncementEvent)
  : list AnnouncementEvent :=
  filter (fun e => blockNumber e =? b) events.

Definition ascending (e1 e2 : AnnouncementEvent) : Prop :=
  blockNumber e1 <= blockNumber e2.

End Events.

Arguments mkEvent {Payload} blockNumber payload.
Arguments blockNumber {Payload} _.
Arguments payload {Payload} _.
Arguments insertLog {Payload} e sorted.
Arguments sortStealthKeyLogs {Payload} events.
Arguments ofBlock {Payload} b events.
Arguments ascending {Payload} e1 e2.

End Scanner.

(** ** Concrete inputs used below *)

Module Examples.

(** A wallet: a private key of 32 bytes and its public key. *)
Definition receiver : Wallet := mkWallet
  "0xe91f8412128b2f330c5c7fd0a6a3a4506513270e269e0d37f2a74de452e6b438"
  "0x04dc18f4ab06d17eaa6f199e01e5cccf0e140bf0365a37e7378a677c23fe7d9901dd7c62a4d704eb6a5d6c46450d19dc5225d081c3526cf49d76cb8b1d45b1e447".

(** A random array of 32 bytes. *)
Definition randomArray : list byte :=
  [x8f; x67; x4b; x81; x2e; xb2; x6a; xa7; x69; x89; xd8; x9e; x30; x27; xdb; x71;
   xe4; xa4; xe6; xb8; x81; x40; x4c; xaf; x35; x32; x00; x0c; x82; xf8; x9e; xb7].

(** The wallet of the private key 10: its public key is [10 G]. *)
Definition receiver10 : Wallet := mkWallet
  "0x000000000000000000000000000000000000000000000000000000000000000a"
  "0x04a0434d9e47f3c86235477c7b1ae6ae5d3442d49b1943c2b752a68e2a47e247c7893aba425419bc27a3b6c7e693a24c696f794c2ed877a1593cbee53b037368d7".

(** The private key 10 with the public key of the tests, which is not
    its own. *)
Definition staleReceiver : Wallet := mkWallet
  "0x000000000000000000000000000000000000000000000000000000000000000a"
  Resolver.publicKey.

(** 32 bytes, the last one 13. *)
Definition randomArray13 : list byte := (repeat x00 31 ++ [x0d])%list.

(** The Y coordinate of [130 G], which has 62 hexadecimal digits. *)
Definition y130 : Z := 0x65a58128f755afae6fae38ed6d2ec4306a0a11fdd22b0d7d5fa49229d31669.

(** The events of the test of [sortStealthKeyLogs]. *)
Definition logs : list (Scanner.AnnouncementEvent unit) :=
  [Scanner.mkEvent 3 tt; Scanner.mkEvent 2 tt; Scanner.mkEvent 1 tt].
Definition expected : list (Scanner.AnnouncementEvent unit) :=
  [Scanner.mkEvent 1 tt; Scanner.mkEvent 2 tt; Scanner.mkEvent 3 tt].

(** Events of two blocks, told apart by their payload. *)
Definition sameBlockLogs : list (Scanner.AnnouncementEvent string) :=
  [Scanner.mkEvent 3 "a"; Scanner.mkEvent 2 "b"; Scanner.mkEvent 3 "c";
   Scanner.mkEvent 2 "d"].

End Examples.

(** ** Invariants *)

(** A point whose coordinates are in [0, p): what the reduction context of
    bn.js keeps. *)
Definition reducedPoint (P : ec.Point) : Prop :=
  match P with
  | ec.Infinity => True
  | ec.Affine x y => (0 <= x < ec.p) /\ (0 <= y < ec.p)
  end.

(** ** Multiples of the generator used below *)

Module Points.

(** [10 G], the public key of [Examples.receiver10]. *)
Definition x10 : Z := 0xa0434d9e47f3c86235477c7b1ae6ae5d3442d49b1943c2b752a68e2a47e247c7.
Definition y10 : Z := 0x893aba425419bc27a3b6c7e693a24c696f794c2ed877a1593cbee53b037368d7.

(** [20 G]: both coordinates have 64 hexadecimal digits. *)
Definition x20 : Z := 0x4ce119c96e2fa357200b559b2f7dd5a5f02d5290aff74b03f3e471b273211c97.
Definition y20 : Z := 0x12ba26dcb10ec1625da61fa10a844c676162948271d96967450288ee9233dc3a.

(** [130 G]: the Y coordinate, [Examples.y130], has 62 digits. *)
Definition x130 : Z := 0x9dda94404337db1474e67f1d7052f398a0e70ed205c5e94d6e731b06c6f51cd8.

End Points.

(** * Properties *)

(** ** Known values of the libraries *)

(** The Keccak-256 digest of the empty message. *)
Example keccak256_empty :
  Keccak.keccak256 []
  = "c5d2460186f7233c927e7db2dcc703c0e500b653ca82273b7bfad8045d85a470".
Proof. vm_compute. reflexivity. Qed.

(** The address of the private key 1, from the coordinates of the
    generator. *)
Example address_of_generator :
  addressOfKey
    ("79be667ef9dcbbac55a06295ce870b07029bfcdb2dce28d959f2815b16f81798"
     ++ "483ada7726a3c4655da4fbfc0e1108a8fd17b448a68554199c47d08ffb10d4b8")
  = "0x7e5f4552091a69125d5dfcb7b8c2659029395bdf".
Proof. vm_compute. reflexivity. Qed.

(** Twice the generator, a point of the curve. *)
Example generator_doubled :
  ec.mulBN ec.g 2
  = ec.Affine 0xC6047F9441ED7D6D3045406E95C07CD85C778E4B8CEF3CA7ABAC09B95C709EE5
              0x1AE168FEA63DC339A3C58419466CEAEEF7F632653266D0E1236431A950CFE52A
  /\ ec.validate ec.g = true
  /\ ec.validate (ec.mulBN ec.g 2) = true.
Proof. vm_compute. repeat split. Qed.

(** The public key of the wallet of 10 is [10 G]. *)
Example receiver10_public_key :
  ec.mulBN ec.g 10
  = ec.Affine 0xa0434d9e47f3c86235477c7b1ae6ae5d3442d49b1943c2b752a68e2a47e247c7
              0x893aba425419bc27a3b6c7e693a24c696f794c2ed877a1593cbee53b037368d7.
Proof. vm_compute. reflexivity. Qed.

(** ** Lemmas on strings and padding *)

Lemma length_append (s t : string) :
  String.length (s ++ t) = (String.length s + String.length t)%nat.
Proof. induction s as [|c s IH]; simpl; [reflexivity | now rewrite IH]. Qed.

Lemma length_zeros (k : nat) : String.length (zeros k) = k.
Proof. induction k as [|k IH]; simpl; [reflexivity | now rewrite IH]. Qed.

Lemma fillCycle_zero (k : nat) (cur : string) :
  cur = "" \/ cur = "0" -> fillCycle "0" cur k = zeros k.
Proof.
  revert cur; induction k as [|k IH]; intros cur Hcur; [reflexivity|].
  destruct Hcur as [-> | ->]; simpl; f_equal; apply IH; auto.
Qed.

Lemma pad32ByteHex_long (hex : string) :
  (64 <= String.length hex)%nat -> pad32ByteHex hex = hex.
Proof.
  intros H. unfold pad32ByteHex, padStart.
  apply Nat.leb_le in H. now rewrite H.
Qed.

Lemma pad32ByteHex_short (hex : string) :
  (String.length hex < 64)%nat ->
  pad32ByteHex hex = zeros (64 - String.length hex) ++ hex.
Proof.
  intros H. unfold pad32ByteHex, padStart.
  apply Nat.leb_gt in H. rewrite H.
  rewrite fillCycle_zero by auto. reflexivity.
Qed.

Lemma pad32ByteHex_zeros (hex : string) :
  pad32ByteHex hex = zeros (64 - String.length hex) ++ hex.
Proof.
  destruct (Nat.le_gt_cases 64 (String.length hex)) as [H|H].
  - rewrite pad32ByteHex_long by exact H.
    replace (64 - String.length hex)%nat with 0%nat by lia. reflexivity.
  - now apply pad32ByteHex_short.
Qed.

Lemma length_pad32ByteHex (hex : string) :
  String.length (pad32ByteHex hex) = Nat.max 64 (String.length hex).
Proof.
  rewrite pad32ByteHex_zeros, length_append, length_zeros. lia.
Qed.

Lemma length_digitsBE (n : nat) (v : Z) (acc : string) :
  String.length (digitsBE n v acc) = (n + String.length acc)%nat.
Proof.
  revert v acc; induction n as [|n IH]; intros v acc; simpl; [reflexivity|].
  rewrite IH. simpl. lia.
Qed.

Lemma length_toString16 (v : Z) : String.length (toString16 v) = hexLen v.
Proof. unfold toString16. rewrite length_digitsBE. simpl. lia. Qed.

Lemma hexLen_bound (v : Z) (k : nat) :
  (0 < k)%nat -> v < 16 ^ Z.of_nat k -> (hexLen v <= k)%nat.
Proof.
  intros Hk Hv. unfold hexLen.
  destruct (Z.leb_spec v 0) as [Hle|Hpos]; [lia|].
  assert (Hlog : Z.log2 v < 4 * Z.of_nat k).
  { apply Z.log2_lt_pow2; [exact Hpos|].
    replace (2 ^ (4 * Z.of_nat k)) with (16 ^ Z.of_nat k); [exact Hv|].
    change 16 with (2 ^ 4). rewrite <- Z.pow_mul_r by lia. reflexivity. }
  assert (Z.log2 v / 4 < Z.of_nat k) by (apply Z.div_lt_upper_bound; lia).
  assert (0 <= Z.log2 v / 4) by (apply Z.div_pos; [apply Z.log2_nonneg | lia]).
  lia.
Qed.

Lemma sliceTo_sliceFrom (k : nat) (s : string) : sliceTo k s ++ sliceFrom k s = s.
Proof.
  revert s; induction k as [|k IH]; intros s; [reflexivity|].
  destruct s as [|c s]; simpl; [reflexivity | now rewrite IH].
Qed.

Lemma length_sliceTo (k : nat) (s : string) :
  String.length (sliceTo k s) = Nat.min k (String.length s).
Proof.
  revert s; induction k as [|k IH]; intros s; [reflexivity|].
  destruct s as [|c s]; simpl; [reflexivity | now rewrite IH].
Qed.

Lemma length_sliceFrom (k : nat) (s : string) :
  String.length (sliceFrom k s) = (String.length s - k)%nat.
Proof.
  revert s; induction k as [|k IH]; intros s; simpl; [lia|].
  destruct s as [|c s]; simpl; [reflexivity | now rewrite IH].
Qed.

(** Lengths of the strings the script builds, for [autorewrite]. *)
Create Rewrite HintDb strlen.
#[local] Hint Rewrite length_append length_zeros length_pad32ByteHex
  length_sliceTo length_sliceFrom : strlen.

(** ** Lemmas on hexadecimal strings *)

Lemma hexValue_hexDigit (d : Z) : 0 <= d < 16 -> hexValue (hexDigit d) = Some d.
Proof.
  intros H.
  assert (Hd : d = 0 \/ d = 1 \/ d = 2 \/ d = 3 \/ d = 4 \/ d = 5 \/ d = 6 \/ d = 7 \/
               d = 8 \/ d = 9 \/ d = 10 \/ d = 11 \/ d = 12 \/ d = 13 \/ d = 14 \/ d = 15)
    by lia.
  repeat (destruct Hd as [-> | Hd]; [reflexivity|]). subst d. reflexivity.
Qed.

Lemma hexDigit_isHex (d : Z) : exists v, hexValue (hexDigit d) = Some v.
Proof.
  destruct d as [|q|q]; [eexists; reflexivity | | eexists; reflexivity].
  do 4 (destruct q as [q|q|]; try (eexists; reflexivity)).
Qed.

Lemma hexValue_range (c : ascii) (d : Z) : hexValue c = Some d -> 0 <= d < 16.
Proof.
  unfold hexValue. set (code := Z.of_N (N_of_ascii c)).
  destruct (Z.leb_spec 48 code), (Z.leb_spec code 57); simpl;
    try (intros [= <-]; lia);
    destruct (Z.leb_spec 65 code), (Z.leb_spec code 70); simpl;
    try (intros [= <-]; lia);
    destruct (Z.leb_spec 97 code), (Z.leb_spec code 102); simpl;
    try (intros [= <-]; lia); discriminate.
Qed.

Lemma allHex_append (s t : string) :
  allHex (s ++ t) = allHex s && allHex t.
Proof.
  induction s as [|c s IH]; simpl; [reflexivity|].
  destruct (hexValue c); [exact IH | reflexivity].
Qed.

Lemma allHex_zeros (k : nat) : allHex (zeros k) = true.
Proof. induction k as [|k IH]; [reflexivity | exact IH]. Qed.

Lemma allHex_digitsBE (k : nat) (v : Z) (acc : string) :
  allHex acc = true -> allHex (digitsBE k v acc) = true.
Proof.
  revert v acc; induction k as [|k IH]; intros v acc Hacc; simpl; [exact Hacc|].
  apply IH. simpl. destruct (hexDigit_isHex (v mod 16)) as [d ->]. exact Hacc.
Qed.

Lemma allHex_toString16 (v : Z) : allHex (toString16 v) = true.
Proof. apply allHex_digitsBE. reflexivity. Qed.

Lemma allHex_pad32ByteHex (s : string) :
  allHex s = true -> allHex (pad32ByteHex s) = true.
Proof.
  intros H. rewrite pad32ByteHex_zeros, allHex_append, allHex_zeros. exact H.
Qed.

(** Strings that are made of hexadecimal digits, for [auto]. *)
Create HintDb hexdigits.
#[local] Hint Resolve allHex_zeros allHex_toString16 allHex_pad32ByteHex : hexdigits.

(** A string of digits always parses, to a number that is not negative. *)
Lemma parseAcc_allHex (s : string) (acc : Z) :
  allHex s = true -> 0 <= acc -> exists v, parseAcc s acc = Ok v /\ 0 <= v.
Proof.
  revert acc; induction s as [|c s IH]; intros acc Hs Hacc; cbn [parseAcc].
  - exists acc. split; [reflexivity | exact Hacc].
  - cbn [allHex] in Hs. destruct (hexValue c) as [d|] eqn:Hc; [|discriminate].
    apply hexValue_range in Hc. apply IH; [exact Hs | lia].
Qed.

Lemma parseAcc_Ok_allHex (s : string) (acc v : Z) :
  parseAcc s acc = Ok v -> allHex s = true.
Proof.
  revert acc; induction s as [|c s IH]; intros acc; cbn [parseAcc allHex];
    [reflexivity|].
  destruct (hexValue c); [apply IH | discriminate].
Qed.

Lemma parseAcc_zeros (k : nat) (s : string) :
  parseAcc (zeros k ++ s) 0 = parseAcc s 0.
Proof. induction k as [|k IH]; [reflexivity | exact IH]. Qed.

Lemma parse16_pad32ByteHex (s : string) : parse16 (pad32ByteHex s) = parse16 s.
Proof. unfold parse16. rewrite pad32ByteHex_zeros. apply parseAcc_zeros. Qed.

Lemma parseAcc_digitsBE (k : nat) (v : Z) (acc : string) (a : Z) :
  0 <= v ->
  parseAcc (digitsBE k v acc) a = parseAcc acc (a * 16 ^ Z.of_nat k + v mod 16 ^ Z.of_nat k).
Proof.
  revert v acc a; induction k as [|k IH]; intros v acc a Hv.
  - simpl. rewrite Z.mod_1_r. f_equal. lia.
  - cbn [digitsBE]. rewrite IH by (apply Z.div_pos; lia).
    cbn [parseAcc]. rewrite hexValue_hexDigit by (apply Z.mod_pos_bound; lia).
    f_equal. rewrite Nat2Z.inj_succ, Z.pow_succ_r by lia.
    assert (Hpow : 0 < 16 ^ Z.of_nat k) by (apply Z.pow_pos_nonneg; lia).
    rewrite (Z.rem_mul_r v 16 (16 ^ Z.of_nat k)) by lia.
    lia.
Qed.

Lemma hexLen_covers (v : Z) : 0 <= v -> v < 16 ^ Z.of_nat (hexLen v).
Proof.
  intros Hv. unfold hexLen.
  destruct (Z.leb_spec v 0) as [Hle|Hpos].
  - replace v with 0 by lia. reflexivity.
  - assert (Hq : 0 <= Z.log2 v / 4)
      by (apply Z.div_pos; [apply Z.log2_nonneg | lia]).
    rewrite Nat2Z.inj_succ. rewrite Z2Nat.id by exact Hq.
    change 16 with (2 ^ 4). rewrite <- Z.pow_mul_r by lia.
    destruct (Z.log2_spec v Hpos) as [_ Hlt].
    eapply Z.lt_le_trans; [exact Hlt|].
    apply Z.pow_le_mono_r; [lia|].
    pose proof (Z.mul_succ_div_gt (Z.log2 v) 4). lia.
Qed.

(** Reading back what [toString('hex')] wrote. *)
Lemma parse16_toString16 (v : Z) : 0 <= v -> parse16 (toString16 v) = Ok v.
Proof.
  intros Hv. unfold parse16, toString16.
  rewrite parseAcc_digitsBE by exact Hv. simpl parseAcc.
  rewrite Z.mod_small by (split; [exact Hv | now apply hexLen_covers]).
  reflexivity.
Qed.

Lemma length_toString16_le (v : Z) (k : nat) :
  (0 < k)%nat -> v < 16 ^ Z.of_nat k -> (String.length (toString16 v) <= k)%nat.
Proof. intros Hk Hv. rewrite length_toString16. now apply hexLen_bound. Qed.

(** ** Lemmas on [BigNumber] *)

Lemma string_pairs_ind (P : string -> Prop) :
  P "" ->
  (forall c, P (String c "")) ->
  (forall c1 c2 s, P s -> P (String c1 (String c2 s))) ->
  forall s, P s.
Proof.
  intros H0 H1 H2 s.
  enough (H : P s /\ forall c, P (String c s)) by apply H.
  induction s as [|c s [IHs IHc]]; split; auto.
Qed.

Lemma parseAcc_trimZeroBytes (digits : string) :
  parseAcc (BigNumber.trimZeroBytes digits) 0 = parseAcc digits 0.
Proof.
  induction digits as [|c|c1 c2 more IH] using string_pairs_ind; try reflexivity.
  cbn [BigNumber.trimZeroBytes].
  destruct (Ascii.eqb_spec c1 "0") as [->|]; [|reflexivity].
  destruct (Ascii.eqb_spec c2 "0") as [->|]; [|reflexivity].
  cbn [andb]. destruct more as [|c3 more]; [reflexivity|].
  rewrite IH. reflexivity.
Qed.

Lemma allHex_trimZeroBytes (digits : string) :
  allHex digits = true -> allHex (BigNumber.trimZeroBytes digits) = true.
Proof.
  induction digits as [|c|c1 c2 more IH] using string_pairs_ind; try (intros H; exact H).
  intros H. cbn [BigNumber.trimZeroBytes].
  destruct (Ascii.eqb c1 "0" && Ascii.eqb c2 "0"); [|exact H].
  destruct more as [|c3 more]; [exact H|].
  apply IH. cbn [allHex] in H.
  destruct (hexValue c1); [|discriminate]. destruct (hexValue c2); [|discriminate].
  exact H.
Qed.

Lemma trimZeroBytes_nonempty (digits : string) :
  digits <> "" -> BigNumber.trimZeroBytes digits <> "".
Proof.
  induction digits as [|c|c1 c2 more IH] using string_pairs_ind;
    try (intros H; exact H).
  intros H. cbn [BigNumber.trimZeroBytes].
  destruct (Ascii.eqb c1 "0" && Ascii.eqb c2 "0"); [|exact H].
  destruct more as [|c3 more]; [exact H|].
  apply IH. discriminate.
Qed.

Lemma eqb_empty_false (s : string) : s <> "" -> String.eqb s "" = false.
Proof. destruct s; [contradiction | reflexivity]. Qed.

Lemma toString16_nonempty (v : Z) : toString16 v <> "".
Proof.
  intros H. pose proof (length_toString16 v) as Hlen. rewrite H in Hlen.
  unfold hexLen in Hlen. destruct (v <=? 0); discriminate Hlen.
Qed.

(** A string of digits does not start with ["0x"]. *)
Lemma allHex_not_prefixed (s : string) :
  allHex s = true -> String.eqb (sliceTo 2 s) "0x" = false.
Proof.
  destruct s as [|c1 [|c2 s]]; intros H; try reflexivity.
  - cbn. destruct (Ascii.eqb c1 "0"); reflexivity.
  - cbn [sliceTo]. cbn [allHex] in H.
    destruct (hexValue c1); [|discriminate].
    destruct (hexValue c2) eqn:H2; [|discriminate].
    cbn [String.eqb]. destruct (Ascii.eqb c1 "0"); [|reflexivity].
    destruct (Ascii.eqb_spec c2 "x") as [->|]; [discriminate H2 | reflexivity].
Qed.

Lemma toHex_unprefixed (s : string) :
  allHex s = true -> BigNumber.toHex s = BigNumber.toHex ("0x" ++ s).
Proof.
  intros H. unfold BigNumber.toHex.
  rewrite (allHex_not_prefixed s H). reflexivity.
Qed.

(** What [toHex] does to a prefixed string of digits: the result is again
    prefixed digits, at least one, of the same value. *)
Lemma toHex_prefixed (s : string) :
  allHex s = true ->
  exists t, BigNumber.toHex ("0x" ++ s) = "0x" ++ t
            /\ allHex t = true /\ t <> "" /\ parse16 t = parse16 s.
Proof.
  intros H. unfold BigNumber.toHex.
  change (sliceTo 2 ("0x" ++ s)) with "0x". cbn [String.eqb Ascii.eqb Bool.eqb].
  destruct s as [|c s].
  - exists "00". repeat split. discriminate.
  - change (String.eqb ("0x" ++ String c s) "0x") with false. cbv iota.
    destruct (Nat.odd (String.length ("0x" ++ String c s))).
    + exists (BigNumber.trimZeroBytes (String "0" (String c s))).
      change (sliceFrom 2 ("0x0" ++ sliceFrom 2 ("0x" ++ String c s)))
        with (String "0" (String c s)).
      split; [reflexivity|]. split; [|split].
      * apply allHex_trimZeroBytes. exact H.
      * apply trimZeroBytes_nonempty. discriminate.
      * unfold parse16. rewrite parseAcc_trimZeroBytes. reflexivity.
    + exists (BigNumber.trimZeroBytes (String c s)).
      change (sliceFrom 2 ("0x" ++ String c s)) with (String c s).
      split; [reflexivity|]. split; [|split].
      * apply allHex_trimZeroBytes. exact H.
      * apply trimZeroBytes_nonempty. discriminate.
      * unfold parse16. apply parseAcc_trimZeroBytes.
Qed.

Lemma parse16_Ok_allHex (s : string) (v : Z) : parse16 s = Ok v -> allHex s = true.
Proof. apply parseAcc_Ok_allHex. Qed.

Lemma parse16_nonneg (s : string) (v : Z) : parse16 s = Ok v -> 0 <= v.
Proof.
  intros H. pose proof (parse16_Ok_allHex s v H) as Hs.
  destruct (parseAcc_allHex s 0 Hs (Z.le_refl 0)) as [v' [Hv' Hpos]].
  unfold parse16 in H. congruence.
Qed.

(** [BigNumber.from("0x" + s)] for digits [s], at least one, of value [v]:
    a big number of value [v], whose string is ["0x"] and digits. *)
Lemma BigNumber_from_digits (s : string) (v : Z) :
  s <> "" ->
  parse16 s = Ok v ->
  exists t, BigNumber.from ("0x" ++ s) = Ok (BigNumber.mk ("0x" ++ t))
            /\ allHex t = true /\ t <> "" /\ parse16 t = Ok v.
Proof.
  intros Hne Hv. pose proof (parse16_Ok_allHex s v Hv) as Hs.
  destruct (toHex_prefixed s Hs) as [t [Ht [Hall [Hnonempty Hparse]]]].
  exists t. split; [|split; [exact Hall | split; [exact Hnonempty | congruence]]].
  unfold BigNumber.from, BigNumber.isHexNumber.
  change (sliceTo 2 ("0x" ++ s)) with "0x".
  change (sliceFrom 2 ("0x" ++ s)) with s.
  rewrite Hs, (eqb_empty_false s Hne), Ht. reflexivity.
Qed.

Lemma toBN_prefixed (t : string) :
  BigNumber.toBN (BigNumber.mk ("0x" ++ t)) = parse16 t.
Proof. reflexivity. Qed.

(** [toBigNumber(bn)] writes a number that [toBN] reads back. *)
Lemma toBigNumber_digits (v : Z) :
  0 <= v ->
  exists t, BigNumber.toBigNumber v = Ok (BigNumber.mk ("0x" ++ t))
            /\ allHex t = true /\ t <> "" /\ parse16 t = Ok v.
Proof.
  intros Hv. unfold BigNumber.toBigNumber.
  rewrite toHex_unprefixed by apply allHex_toString16.
  destruct (toHex_prefixed (toString16 v) (allHex_toString16 v))
    as [t [-> [Hall [Hne Hp]]]].
  apply BigNumber_from_digits; [exact Hne|].
  rewrite Hp. now apply parse16_toString16.
Qed.

(** ** The coordinate padding *)

Lemma coordinate_below_16_64 (v : Z) : v < ec.p -> v < 16 ^ Z.of_nat 64.
Proof.
  intros H. eapply Z.lt_trans; [exact H|]. reflexivity.
Qed.

Lemma pad32ByteHex_idempotent (hex : string) :
  pad32ByteHex (pad32ByteHex hex) = pad32ByteHex hex.
Proof.
  apply pad32ByteHex_long. rewrite length_pad32ByteHex. lia.
Qed.

(** C2: [pad32ByteHex] (the [encodeCoordinate] of the specification) is
    idempotent on every string; on a string of at most 64 characters it
    returns exactly 64 characters, the missing ones being zeros on the left;
    and on the hexadecimal form of every coordinate of the curve (a number
    below [p]) it returns 64 hexadecimal digits that denote the
    coordinate. *)
Theorem pad32ByteHex_idempotent_width (hex : string) (v : Z) :
  pad32ByteHex (pad32ByteHex hex) = pad32ByteHex hex
  /\ ((String.length hex <= 64)%nat ->
      String.length (pad32ByteHex hex) = 64%nat
      /\ pad32ByteHex hex = zeros (64 - String.length hex) ++ hex)
  /\ (0 <= v < ec.p ->
      String.length (pad32ByteHex (toString16 v)) = 64%nat
      /\ allHex (pad32ByteHex (toString16 v)) = true
      /\ parse16 (pad32ByteHex (toString16 v)) = Ok v).
Proof.
  split; [apply pad32ByteHex_idempotent|]. split.
  - intros Hlen. split; [|apply pad32ByteHex_zeros].
    rewrite length_pad32ByteHex. lia.
  - intros [Hv Hp].
    assert (Hlen : (String.length (toString16 v) <= 64)%nat).
    { apply length_toString16_le; [lia | now apply coordinate_below_16_64]. }
    split; [rewrite length_pad32ByteHex; lia|]. split.
    + auto with hexdigits.
    + rewrite parse16_pad32ByteHex. now apply parse16_toString16.
Qed.

(** The Y coordinate of [130 G] has 62 digits; it gets two zeros. *)
Lemma pad32ByteHex_idempotent_width_witness :
  toString16 Examples.y130
  = "65a58128f755afae6fae38ed6d2ec4306a0a11fdd22b0d7d5fa49229d31669"
  /\ pad32ByteHex (toString16 Examples.y130)
     = "0065a58128f755afae6fae38ed6d2ec4306a0a11fdd22b0d7d5fa49229d31669"
  /\ pad32ByteHex (pad32ByteHex (toString16 Examples.y130))
     = pad32ByteHex (toString16 Examples.y130)
  /\ String.length (pad32ByteHex (toString16 Examples.y130)) = 64%nat
  /\ parse16 (pad32ByteHex (toString16 Examples.y130)) = Ok Examples.y130.
Proof.
  set (y := Examples.y130).
  destruct (pad32ByteHex_idempotent_width (toString16 y) y) as [Hidem [Hshort Hcoord]].
  assert (Hy : 0 <= y < ec.p) by (vm_compute; split; [discriminate | reflexivity]).
  assert (Hlen : (String.length (toString16 y) <= 64)%nat)
    by (vm_compute; repeat constructor).
  destruct (Hshort Hlen) as [_ Hpad]. destruct (Hcoord Hy) as [H64 [_ Hparse]].
  split; [reflexivity|]. split; [reflexivity|].
  split; [exact Hidem|]. split; [exact H64 | exact Hparse].
Defined.

(** C10: [pad32ByteHex] never truncates: a string of 64 characters or more
    comes back unchanged, the length of the result is the larger of 64 and
    the length of the input, and the input is a suffix of the result. *)
Theorem pad32ByteHex_never_truncates (hex : string) :
  ((64 <= String.length hex)%nat -> pad32ByteHex hex = hex)
  /\ String.length (pad32ByteHex hex) = Nat.max 64 (String.length hex)
  /\ isSuffixOf hex (pad32ByteHex hex).
Proof.
  split; [apply pad32ByteHex_long|]. split; [apply length_pad32ByteHex|].
  exists (zeros (64 - String.length hex)). apply pad32ByteHex_zeros.
Qed.

(** The public key of the tests without its ["0x"] has 130 characters. *)
Lemma pad32ByteHex_never_truncates_witness :
  (64 <= String.length (sliceFrom 2 Resolver.publicKey))%nat
  /\ pad32ByteHex (sliceFrom 2 Resolver.publicKey) = sliceFrom 2 Resolver.publicKey
  /\ String.length (pad32ByteHex (sliceFrom 2 Resolver.publicKey)) = 130%nat.
Proof.
  set (hex := sliceFrom 2 Resolver.publicKey).
  destruct (pad32ByteHex_never_truncates hex) as [Hlong [Hlen _]].
  assert (H : (64 <= String.length hex)%nat) by (vm_compute; repeat constructor).
  split; [exact H|]. split; [exact (Hlong H)|].
  rewrite Hlen. reflexivity.
Defined.

(** ** The random value *)

Lemma byteZ_range (b : byte) : 0 <= byteZ b < 256.
Proof.
  unfold byteZ. pose proof (Byte.to_N_bounded b). lia.
Qed.

Lemma parseAcc_byteHex (b : byte) (rest : string) (acc : Z) :
  parseAcc (byteHex b rest) acc = parseAcc rest (256 * acc + byteZ b).
Proof.
  pose proof (byteZ_range b) as Hb. unfold byteHex. cbn [parseAcc].
  rewrite hexValue_hexDigit
    by (split; [apply Z.div_pos; lia | apply Z.div_lt_upper_bound; lia]).
  rewrite hexValue_hexDigit by (apply Z.mod_pos_bound; lia).
  f_equal. pose proof (Z.div_mod (byteZ b) 16). lia.
Qed.

Lemma parseAcc_bytes (arr : list byte) (acc : Z) :
  parseAcc (fold_right byteHex "" arr) acc
  = Ok (fold_left (fun a b => 256 * a + byteZ b) arr acc).
Proof.
  revert acc; induction arr as [|b arr IH]; intros acc; [reflexivity|].
  cbn [fold_right fold_left]. rewrite parseAcc_byteHex. apply IH.
Qed.

(** The digits of [hexlify(arr)] denote the big-endian value of [arr]. *)
Lemma parse16_hexlify (arr : list byte) :
  parse16 (sliceFrom 2 (utils.hexlify arr)) = Ok (beValue arr).
Proof. apply parseAcc_bytes. Qed.

Lemma hexlify_digits_nonempty (arr : list byte) :
  arr <> [] -> sliceFrom 2 (utils.hexlify arr) <> "".
Proof. destruct arr; [contradiction | discriminate]. Qed.

Lemma randomValue_digits (randomArray : list byte) :
  randomArray <> [] ->
  exists r, randomValue randomArray = Ok r
            /\ allHex r = true /\ r <> "" /\ parse16 r = Ok (beValue randomArray).
Proof.
  intros Hne. unfold randomValue, BigNumber.fromBytes.
  destruct (BigNumber_from_digits _ _ (hexlify_digits_nonempty _ Hne)
              (parse16_hexlify randomArray)) as [t [Hfrom [Hall [Ht Hparse]]]].
  exists t. change (utils.hexlify randomArray)
    with ("0x" ++ sliceFrom 2 (utils.hexlify randomArray)).
  rewrite Hfrom. cbn. auto.
Qed.

(** C9: for an array of 32 bytes, the string [randomValue] made from it is
    read by the sender ([new BN(randomValue, 16)] inside [mul]) and by the
    recipient ([BigNumber.from] of the prefixed string, then [toBN] inside
    the product) as the same integer, the big-endian value of the array,
    whatever the number of leading zero bytes of the array. *)
Theorem randomValue_same_scalar (randomArray : list byte) :
  List.length randomArray = 32%nat ->
  exists r : string,
    randomValue randomArray = Ok r
    /\ parse16 r = Ok (beValue randomArray)
    /\ (forall P, ec.mul P r = Ok (ec.mulBN P (beValue randomArray)))
    /\ exists randomValueBN,
         BigNumber.from ("0x" ++ r) = Ok randomValueBN
         /\ BigNumber.toBN randomValueBN = Ok (beValue randomArray).
Proof.
  intros Hlen.
  assert (Hne : randomArray <> []) by (intros ->; discriminate Hlen).
  destruct (randomValue_digits randomArray Hne) as [r [Hr [Hall [Hnonempty Hparse]]]].
  exists r. split; [exact Hr|]. split; [exact Hparse|]. split.
  - intros P. unfold ec.mul. rewrite Hparse. reflexivity.
  - destruct (BigNumber_from_digits r _ Hnonempty Hparse) as [t [Hfrom [_ [_ Ht]]]].
    exists (BigNumber.mk ("0x" ++ t)). split; [exact Hfrom | exact Ht].
Qed.

(** The array of 31 zero bytes and the byte 13: the string has two digits,
    and both sides read 13. *)
Lemma randomValue_same_scalar_witness :
  exists r : string,
    randomValue Examples.randomArray13 = Ok r
    /\ parse16 r = Ok (beValue Examples.randomArray13)
    /\ (forall P, ec.mul P r = Ok (ec.mulBN P (beValue Examples.randomArray13)))
    /\ exists randomValueBN,
         BigNumber.from ("0x" ++ r) = Ok randomValueBN
         /\ BigNumber.toBN randomValueBN = Ok (beValue Examples.randomArray13).
Proof.
  apply (randomValue_same_scalar Examples.randomArray13). reflexivity.
Defined.

(** ** The private key of the stealth address *)

Lemma receiverPrivateKeyEC_priv (receiver : Wallet) (d : Z) :
  parse16 (sliceFrom 2 (privateKey receiver)) = Ok d ->
  receiverPrivateKeyEC receiver = Ok (ec.mkKeyPair (Some (d mod ec.n)) None).
Proof.
  intros Hd. unfold receiverPrivateKeyEC, ec.keyFromPrivate. rewrite Hd. reflexivity.
Qed.

Lemma order_positive : 0 < ec.n.
Proof. reflexivity. Qed.

Lemma stealthPrivateKeyFull_product (receiver : Wallet) (r : string) (d rv : Z) :
  parse16 (sliceFrom 2 (privateKey receiver)) = Ok d ->
  r <> "" ->
  parse16 r = Ok rv ->
  exists full, stealthPrivateKeyFull receiver r = Ok full
               /\ full <> "" /\ parse16 full = Ok ((d mod ec.n) * rv).
Proof.
  intros Hd Hne Hr.
  pose proof (Z.mod_pos_bound d ec.n order_positive) as Hmod.
  pose proof (parse16_nonneg _ _ Hr) as Hrv.
  unfold stealthPrivateKeyFull.
  rewrite (receiverPrivateKeyEC_priv receiver d Hd). cbn [bind ec.getPrivate ec.priv].
  destruct (BigNumber_from_digits r rv Hne Hr) as [t1 [-> [_ [_ H1]]]].
  assert (Hp : parse16 (toString16 (d mod ec.n)) = Ok (d mod ec.n))
    by (apply parse16_toString16; lia).
  destruct (BigNumber_from_digits _ _ (toString16_nonempty _) Hp)
    as [t2 [-> [_ [_ H2]]]].
  cbn [bind]. unfold BigNumber.mul. rewrite !toBN_prefixed, H1, H2. cbn [bind].
  assert (Hprod : 0 <= d mod ec.n * rv) by (apply Z.mul_nonneg_nonneg; lia).
  destruct (toBigNumber_digits _ Hprod) as [t3 [-> [_ [Hne3 H3]]]].
  exists t3. split; [reflexivity | split; [exact Hne3 | exact H3]].
Qed.

(** C4: the recipient's stealth private key is the product of the private
    key and the shared secret, taken as an integer of any size, modulo the
    order [n] of the curve, and lies in [0, n). *)
Theorem stealthPrivateKey_product_mod_n (receiver : Wallet) (r : string) (d rv : Z) :
  parse16 (sliceFrom 2 (privateKey receiver)) = Ok d ->
  d < ec.n ->
  r <> "" ->
  parse16 r = Ok rv ->
  exists full key,
    stealthPrivateKeyFull receiver r = Ok full
    /\ parse16 full = Ok (d * rv)
    /\ stealthPrivateKey receiver r = Ok key
    /\ BigNumber.toBN key = Ok ((d * rv) mod ec.n)
    /\ 0 <= (d * rv) mod ec.n < ec.n.
Proof.
  intros Hd Hlt Hne Hr.
  pose proof (parse16_nonneg _ _ Hd) as Hd0.
  pose proof (parse16_nonneg _ _ Hr) as Hrv.
  destruct (stealthPrivateKeyFull_product receiver r d rv Hd Hne Hr)
    as [full [Hfull [Hnefull Hp]]].
  rewrite Z.mod_small in Hp by lia.
  pose proof (Z.mod_pos_bound (d * rv) ec.n order_positive) as Hrange.
  destruct (toBigNumber_digits ((d * rv) mod ec.n) (proj1 Hrange))
    as [tk [Hkey [_ [_ Hparse]]]].
  exists full, (BigNumber.mk ("0x" ++ tk)).
  split; [exact Hfull|]. split; [exact Hp|]. split; [|split; [exact Hparse | exact Hrange]].
  unfold stealthPrivateKey. rewrite Hfull. cbn [bind].
  destruct (BigNumber_from_digits full _ Hnefull Hp) as [t [-> [_ [_ Ht]]]]. cbn [bind].
  unfold BigNumber.mod_.
  assert (Hn : parse16 (toString16 ec.n) = Ok ec.n)
    by (apply parse16_toString16; discriminate).
  destruct (BigNumber_from_digits _ _ (toString16_nonempty _) Hn)
    as [tn [-> [_ [_ Htn]]]]. cbn [bind].
  rewrite !toBN_prefixed, Htn, Ht. cbn [bind].
  change (ec.n =? 0) with false. cbv iota. exact Hkey.
Qed.

(** The private key 10 and the random value ["0d"]: the product is 130. *)
Lemma stealthPrivateKey_product_mod_n_witness :
  exists full key,
    stealthPrivateKeyFull Examples.receiver10 "0d" = Ok full
    /\ parse16 full = Ok (10 * 13)
    /\ stealthPrivateKey Examples.receiver10 "0d" = Ok key
    /\ BigNumber.toBN key = Ok ((10 * 13) mod ec.n)
    /\ 0 <= (10 * 13) mod ec.n < ec.n.
Proof.
  apply (stealthPrivateKey_product_mod_n Examples.receiver10 "0d" 10 13).
  - reflexivity.
  - reflexivity.
  - discriminate.
  - reflexivity.
Defined.

(** ** The self-checks of the script *)

(** C5: the recovery of step 1 compares the recovered key with the public
    key the signer declares; when they differ it throws (the
    [RecoveryMismatch] of the specification), and a key it returns is the
    recovered key and equals the declared one. *)
Theorem recoveredPublicKey_self_check
  (hashMessage : string -> string) (recoverPublicKey : list byte -> string -> string)
  (receiver : Wallet) (signature : string) :
  (recoverPublicKey (utils.arrayify (hashMessage message)) signature
     <> publicKey receiver ->
   recoveredPublicKey hashMessage recoverPublicKey receiver signature
     = Throw RecoveryMismatch)
  /\ (forall key,
        recoveredPublicKey hashMessage recoverPublicKey receiver signature = Ok key ->
        key = recoverPublicKey (utils.arrayify (hashMessage message)) signature
        /\ key = publicKey receiver).
Proof.
  unfold recoveredPublicKey.
  destruct (String.eqb_spec
              (recoverPublicKey (utils.arrayify (hashMessage message)) signature)
              (publicKey receiver)) as [Heq|Hneq]; cbn [negb]; split.
  - intros Hdiff. contradiction.
  - intros key [= <-]. split; [reflexivity | exact Heq].
  - intros _. reflexivity.
  - intros key Hkey. discriminate Hkey.
Qed.

(** A recovery that yields the key of the tests, for a signer who declares
    another key and for one who declares that key. *)
Lemma recoveredPublicKey_self_check_witness :
  recoveredPublicKey (fun m => m) (fun _ _ => Resolver.publicKey)
                     Examples.receiver10 "0x" = Throw RecoveryMismatch
  /\ (recoveredPublicKey (fun m => m) (fun _ _ => Resolver.publicKey)
                         Examples.staleReceiver "0x" = Ok Resolver.publicKey ->
      Resolver.publicKey = publicKey Examples.staleReceiver).
Proof.
  split.
  - apply (recoveredPublicKey_self_check (fun m => m) (fun _ _ => Resolver.publicKey)
             Examples.receiver10 "0x").
    apply String.eqb_neq. vm_compute. reflexivity.
  - intros H.
    apply (recoveredPublicKey_self_check (fun m => m) (fun _ _ => Resolver.publicKey)
             Examples.staleReceiver "0x" ). exact H.
Defined.

Lemma checkPublicKeys_unfold (receiver : Wallet) (d x y : Z) :
  parse16 (sliceFrom 2 (privateKey receiver)) = Ok d ->
  ec.mulBN ec.g (d mod ec.n) = ec.Affine x y ->
  checkPublicKeys receiver
  = if negb (String.eqb (receiverPublicKeyX receiver) (pad32ByteHex (toString16 x)))
       || negb (String.eqb (receiverPublicKeyY receiver) (pad32ByteHex (toString16 y)))
    then Throw KeyMismatch else Ok tt.
Proof.
  intros Hd HP. unfold checkPublicKeys.
  rewrite (receiverPrivateKeyEC_priv receiver d Hd).
  cbn [bind ec.getPublic ec.pub ec.priv]. rewrite HP. reflexivity.
Qed.

(** C7: step 6 starts by comparing the X and the Y coordinate of the public
    point of the private key with the coordinates of the published key; if
    either differs it throws (the [KeyMismatch] of the specification)
    whatever the rest of the step would do, and a step that returns has
    found both equal. *)
Theorem step6_checks_keys_first (receiver : Wallet) (r : string) (d x y : Z) :
  parse16 (sliceFrom 2 (privateKey receiver)) = Ok d ->
  ec.mulBN ec.g (d mod ec.n) = ec.Affine x y ->
  (receiverPublicKeyX receiver <> pad32ByteHex (toString16 x)
   \/ receiverPublicKeyY receiver <> pad32ByteHex (toString16 y) ->
   checkPublicKeys receiver = Throw KeyMismatch
   /\ step6 receiver r = Throw KeyMismatch)
  /\ (forall result, step6 receiver r = Ok result ->
      receiverPublicKeyX receiver = pad32ByteHex (toString16 x)
      /\ receiverPublicKeyY receiver = pad32ByteHex (toString16 y)).
Proof.
  intros Hd HP. unfold step6.
  rewrite (checkPublicKeys_unfold receiver d x y Hd HP).
  destruct (String.eqb_spec (receiverPublicKeyX receiver) (pad32ByteHex (toString16 x)))
    as [HX|HX];
  destruct (String.eqb_spec (receiverPublicKeyY receiver) (pad32ByteHex (toString16 y)))
    as [HY|HY]; cbn [negb orb bind]; split;
    try (intros _; split; reflexivity);
    try (intros result Hres; discriminate Hres).
  - intros [H|H]; contradiction.
  - intros result _. split; assumption.
Qed.

(** The private key 10 against the public key of the tests: the check
    throws, even with a random value that is no number. *)
Lemma step6_checks_keys_first_witness :
  checkPublicKeys Examples.staleReceiver = Throw KeyMismatch
  /\ step6 Examples.staleReceiver "not hexadecimal" = Throw KeyMismatch.
Proof.
  apply (step6_checks_keys_first Examples.staleReceiver "not hexadecimal" 10
           0xa0434d9e47f3c86235477c7b1ae6ae5d3442d49b1943c2b752a68e2a47e247c7
           0x893aba425419bc27a3b6c7e693a24c696f794c2ed877a1593cbee53b037368d7).
  - reflexivity.
  - vm_compute. reflexivity.
  - left. apply String.eqb_neq. vm_compute. reflexivity.
Defined.

(** ** The announcement scanner *)

Section SortLemmas.

Import Scanner.

Context {Payload : Type}.
Implicit Types (e : AnnouncementEvent Payload) (l : list (AnnouncementEvent Payload)).

Lemma insertLog_perm e l : Permutation (e :: l) (insertLog e l).
Proof.
  induction l as [|e' l IH]; cbn [insertLog]; [apply Permutation_refl|].
  destruct (blockNumber e <=? blockNumber e'); [apply Permutation_refl|].
  eapply Permutation_trans; [apply perm_swap | apply perm_skip, IH].
Qed.

Lemma Forall_insertLog (P : AnnouncementEvent Payload -> Prop) e l :
  P e -> Forall P l -> Forall P (insertLog e l).
Proof.
  intros He Hl. induction Hl as [|e' l He' Hl IH]; cbn [insertLog].
  - constructor; [exact He | constructor].
  - destruct (blockNumber e <=? blockNumber e'); repeat constructor; assumption.
Qed.

Lemma insertLog_sorted e l :
  StronglySorted ascending l -> StronglySorted ascending (insertLog e l).
Proof.
  intros Hl. induction Hl as [|e' l Hl IH Hall]; cbn [insertLog].
  - repeat constructor.
  - destruct (Z.leb_spec (blockNumber e) (blockNumber e')) as [Hle|Hgt].
    + constructor; [constructor; assumption|].
      constructor; [exact Hle|].
      eapply Forall_impl; [|exact Hall].
      intros e'' H. unfold ascending in *. lia.
    + constructor; [exact IH|].
      apply Forall_insertLog; [unfold ascending; lia | exact Hall].
Qed.

(** An event goes past another one only when their blocks differ. *)
Lemma ofBlock_insertLog (b : Z) e l :
  ofBlock b (insertLog e l) = ofBlock b (e :: l).
Proof.
  induction l as [|e' l IH]; cbn [insertLog]; [reflexivity|].
  destruct (Z.leb_spec (blockNumber e) (blockNumber e')) as [Hle|Hgt]; [reflexivity|].
  unfold ofBlock in *. cbn [filter] in *. rewrite IH.
  destruct (Z.eqb_spec (blockNumber e) b), (Z.eqb_spec (blockNumber e') b);
    try reflexivity. lia.
Qed.

Lemma sortStealthKeyLogs_perm l : Permutation l (sortStealthKeyLogs l).
Proof.
  induction l as [|e l IH]; [apply Permutation_refl|].
  cbn [sortStealthKeyLogs fold_right].
  eapply Permutation_trans; [apply perm_skip, IH | apply insertLog_perm].
Qed.

Lemma sortStealthKeyLogs_sorted l : StronglySorted ascending (sortStealthKeyLogs l).
Proof.
  induction l as [|e l IH]; [constructor|].
  cbn [sortStealthKeyLogs fold_right]. apply insertLog_sorted, IH.
Qed.

Lemma sortStealthKeyLogs_stable (b : Z) l :
  ofBlock b (sortStealthKeyLogs l) = ofBlock b l.
Proof.
  induction l as [|e l IH]; [reflexivity|].
  cbn [sortStealthKeyLogs fold_right]. rewrite ofBlock_insertLog.
  unfold ofBlock in *. cbn [filter]. fold (sortStealthKeyLogs l). rewrite IH.
  reflexivity.
Qed.

End SortLemmas.

(** C8: [sortStealthKeyLogs] returns its events rearranged in ascending
    order of block number, with the events of each block in the order they
    had in the input; on the events of blocks 3, 2, 1 it returns those of
    blocks 1, 2, 3. *)
Theorem sortStealthKeyLogs_ascending_stable
  (Payload : Type) (events : list (Scanner.AnnouncementEvent Payload)) :
  Permutation events (Scanner.sortStealthKeyLogs events)
  /\ StronglySorted Scanner.ascending (Scanner.sortStealthKeyLogs events)
  /\ (forall b, Scanner.ofBlock b (Scanner.sortStealthKeyLogs events)
                = Scanner.ofBlock b events)
  /\ Scanner.sortStealthKeyLogs Examples.logs = Examples.expected.
Proof.
  split; [apply sortStealthKeyLogs_perm|].
  split; [apply sortStealthKeyLogs_sorted|].
  split; [intros b; apply sortStealthKeyLogs_stable | reflexivity].
Qed.

(** Two blocks with two events each: the events of a block keep their
    order. *)
Example sortStealthKeyLogs_same_block :
  Scanner.sortStealthKeyLogs Examples.sameBlockLogs
  = [Scanner.mkEvent 2 "b"; Scanner.mkEvent 2 "d";
     Scanner.mkEvent 3 "a"; Scanner.mkEvent 3 "c"].
Proof. reflexivity. Qed.

(** ** The two derivations of the stealth address *)

(** What the sender hashes (padded coordinates) and what the recipient
    hashes (coordinates as [toString('hex')] gives them) are the same
    string exactly when both coordinates of the point have 64 digits. *)
Lemma keys_equal_iff_full_width (x y : Z) :
  0 <= x < ec.p -> 0 <= y < ec.p ->
  pad32ByteHex (toString16 x) ++ pad32ByteHex (toString16 y)
  = toString16 x ++ toString16 y
  <-> String.length (toString16 x) = 64%nat /\ String.length (toString16 y) = 64%nat.
Proof.
  intros [_ Hx] [_ Hy].
  assert (Hlx : (String.length (toString16 x) <= 64)%nat)
    by (apply length_toString16_le; [lia | now apply coordinate_below_16_64]).
  assert (Hly : (String.length (toString16 y) <= 64)%nat)
    by (apply length_toString16_le; [lia | now apply coordinate_below_16_64]).
  split.
  - intros H. apply (f_equal String.length) in H.
    autorewrite with strlen in H. lia.
  - intros [H64x H64y]. rewrite !pad32ByteHex_long by lia. reflexivity.
Qed.

(** When the two sides reach the same point and both its coordinates have
    64 digits, they hash the same string and get the same address. *)
Lemma addresses_agree_when_full_width
  (receiver : Wallet) (r : string) (key : BigNumber.t) (x y : Z) :
  stealthPublicKeyEC receiver r = Ok (ec.Affine x y) ->
  ec.mul ec.g (sliceFrom 2 (BigNumber.toHexString key)) = Ok (ec.Affine x y) ->
  0 <= x < ec.p -> 0 <= y < ec.p ->
  String.length (toString16 x) = 64%nat ->
  String.length (toString16 y) = 64%nat ->
  stealthAddress receiver r = stealthAddress2 key.
Proof.
  intros Hsender Hrecipient Hx Hy H64x H64y.
  unfold stealthAddress, stealthAddress2, stealthPublicKey, stealthPublicKey2.
  rewrite Hsender, Hrecipient. cbn [bind ec.getX ec.getY].
  rewrite (proj2 (keys_equal_iff_full_width x y Hx Hy) (conj H64x H64y)).
  reflexivity.
Qed.

Lemma bind_Ok {A B : Type} (a : A) (k : A -> result B) : bind (Ok a) k = k a.
Proof. reflexivity. Qed.

Lemma stealthAddress_of_key (receiver : Wallet) (r key : string) :
  stealthPublicKey receiver r = Ok key ->
  stealthAddress receiver r = Ok (addressOfKey key).
Proof. intros H. unfold stealthAddress. rewrite H. reflexivity. Qed.

Lemma step6_of_parts (receiver : Wallet) (r key2 : string) (key : BigNumber.t) :
  checkPublicKeys receiver = Ok tt ->
  stealthPrivateKey receiver r = Ok key ->
  stealthPublicKey2 key = Ok key2 ->
  step6 receiver r = Ok (key, addressOfKey key2).
Proof.
  intros Hcheck Hkey Hkey2. unfold step6, stealthAddress2.
  rewrite Hcheck, bind_Ok, Hkey, bind_Ok, Hkey2. reflexivity.
Qed.

Lemma stealthWallet_32_bytes (key : BigNumber.t) :
  String.length (BigNumber.toHexString key) = 66%nat ->
  stealthWallet key = Ok (BigNumber.toHexString key).
Proof. intros H. unfold stealthWallet. cbv zeta. rewrite H. reflexivity. Qed.

Lemma stealthRoundTrip_mismatch
  (receiver : Wallet) (randomArray : list byte) (r address address2 : string)
  (key : BigNumber.t) :
  randomValue randomArray = Ok r ->
  stealthAddress receiver r = Ok address ->
  step6 receiver r = Ok (key, address2) ->
  String.length (BigNumber.toHexString key) = 66%nat ->
  String.eqb address address2 = false ->
  stealthRoundTrip receiver randomArray = Throw "Stealth addresses do not match".
Proof.
  intros Hr H5 H6 H177 Hneq. unfold stealthRoundTrip, checkStealthAddresses.
  rewrite Hr, bind_Ok, H5, bind_Ok, H6, bind_Ok.
  rewrite (stealthWallet_32_bytes key H177), bind_Ok, Hneq. reflexivity.
Qed.

(** *** A wallet and a random array of 32 bytes *)

Lemma randomValue_example :
  randomValue Examples.randomArray
  = Ok "8f674b812eb26aa76989d89e3027db71e4a4e6b881404caf3532000c82f89eb7".
Proof. vm_compute. reflexivity. Qed.

(** The sender's key: the stealth point has a Y coordinate of 62 digits,
    which [pad32ByteHex] brings to 64. *)
Lemma sender_key_example :
  stealthPublicKey Examples.receiver
    "8f674b812eb26aa76989d89e3027db71e4a4e6b881404caf3532000c82f89eb7"
  = Ok ("9455ae32639b15af8a5edebb0108ab14cda71f338238d11f45357f5293e56cd1"
        ++ "00f657ded6fc9d0e5ca3dcffc0aa3bfffcbeaa8df42db2a4c5debfc6c04bfe10").
Proof. vm_compute. reflexivity. Qed.

Lemma receiver_keys_match : checkPublicKeys Examples.receiver = Ok tt.
Proof. vm_compute. reflexivity. Qed.

Lemma receiver_private_key :
  stealthPrivateKey Examples.receiver
    "8f674b812eb26aa76989d89e3027db71e4a4e6b881404caf3532000c82f89eb7"
  = Ok (BigNumber.mk
          "0x41f87a94abaefcc6656a69d5cd1b37284f9c3b8a9641e44f1019f28e5b6e0523").
Proof. vm_compute. reflexivity. Qed.

(** The recipient's key: the same point, its Y coordinate with the 62
    digits [toString('hex')] gives. *)
Lemma recipient_key_example :
  stealthPublicKey2
    (BigNumber.mk "0x41f87a94abaefcc6656a69d5cd1b37284f9c3b8a9641e44f1019f28e5b6e0523")
  = Ok ("9455ae32639b15af8a5edebb0108ab14cda71f338238d11f45357f5293e56cd1"
        ++ "f657ded6fc9d0e5ca3dcffc0aa3bfffcbeaa8df42db2a4c5debfc6c04bfe10").
Proof. vm_compute. reflexivity. Qed.

Lemma address_of_sender_key :
  addressOfKey
    ("9455ae32639b15af8a5edebb0108ab14cda71f338238d11f45357f5293e56cd1"
     ++ "00f657ded6fc9d0e5ca3dcffc0aa3bfffcbeaa8df42db2a4c5debfc6c04bfe10")
  = "0x40c6db1d930f095d3d8b119c52fed738d08b2dc2".
Proof. vm_compute. reflexivity. Qed.

Lemma address_of_recipient_key :
  addressOfKey
    ("9455ae32639b15af8a5edebb0108ab14cda71f338238d11f45357f5293e56cd1"
     ++ "f657ded6fc9d0e5ca3dcffc0aa3bfffcbeaa8df42db2a4c5debfc6c04bfe10")
  = "0xc3887872d2c2f9ae5deb0fd4d5c3bb2b5c9ab016".
Proof. vm_compute. reflexivity. Qed.

(** C1: the two derivations do not always give the same address.  For the
    wallet and the random array above, the sender hashes the 64 bytes of
    the padded coordinates, the recipient hashes the 63 bytes of the
    coordinates as [toString('hex')] gives them (lines 162-163 do not call
    [pad32ByteHex]), the two stealth addresses differ and the comparison of
    line 181 throws. *)
Theorem stealth_addresses_differ :
  stealthAddress Examples.receiver
    "8f674b812eb26aa76989d89e3027db71e4a4e6b881404caf3532000c82f89eb7"
  = Ok "0x40c6db1d930f095d3d8b119c52fed738d08b2dc2"
  /\ step6 Examples.receiver
       "8f674b812eb26aa76989d89e3027db71e4a4e6b881404caf3532000c82f89eb7"
     = Ok (BigNumber.mk
             "0x41f87a94abaefcc6656a69d5cd1b37284f9c3b8a9641e44f1019f28e5b6e0523",
           "0xc3887872d2c2f9ae5deb0fd4d5c3bb2b5c9ab016")
  /\ stealthRoundTrip Examples.receiver Examples.randomArray
     = Throw "Stealth addresses do not match".
Proof.
  pose proof (stealthAddress_of_key _ _ _ sender_key_example) as H5.
  pose proof (step6_of_parts _ _ _ _ receiver_keys_match receiver_private_key
                recipient_key_example) as H6.
  rewrite address_of_sender_key in H5. rewrite address_of_recipient_key in H6.
  split; [exact H5|]. split; [exact H6|].
  exact (stealthRoundTrip_mismatch _ _ _ _ _ _ randomValue_example H5 H6
           eq_refl eq_refl).
Qed.

(** ** Public keys that are not on the curve *)


Lemma nonempty_not_eqb (s : string) :
  (0 < String.length s)%nat -> String.eqb s "" = false.
Proof. destruct s; simpl; [lia | reflexivity]. Qed.





(** ** The recipient resolver on a public key *)

(** C6: for an identifier that parses as an uncompressed public key (it has
    the format of one and [pointFromPublicKey] decodes it),
    [lookupRecipient] returns that key as the spending and as the viewing
    key when [supportPubKey] is set, and fails with [UnsupportedIdentifier]
    when it is not; no collaborator is consulted. *)
Theorem lookupRecipient_public_key
  (recoverPublicKeyFromTransaction : string -> result string)
  (resolveAddress : string -> option string)
  (getSentTransaction : string -> result string)
  (registryLookup : string -> option Resolver.PublicKeyPair)
  (key : string) (options : Resolver.Options) (P : ec.Point) :
  Resolver.parseIdentifier key = Resolver.RawPublicKey key ->
  Resolver.pointFromPublicKey key = Ok P ->
  (Resolver.supportPubKey options = true ->
   Resolver.lookupRecipient recoverPublicKeyFromTransaction resolveAddress
     getSentTransaction registryLookup key options
   = Ok (Resolver.mkKeys key key))
  /\ (Resolver.supportPubKey options = false ->
      Resolver.lookupRecipient recoverPublicKeyFromTransaction resolveAddress
        getSentTransaction registryLookup key options
      = Throw Resolver.UnsupportedIdentifier).
Proof.
  intros Hid HP. unfold Resolver.lookupRecipient. rewrite Hid.
  split; intros ->; [rewrite HP|]; reflexivity.
Qed.

(** The public key of the tests, with [{ supportPubKey: true }] (lines
    76-80) and with no option (lines 82-85); the registry here knows every
    address, and is not asked. *)
Lemma lookupRecipient_public_key_witness :
  Resolver.lookupRecipient (fun _ => Throw "no provider") (fun a => Some a)
    (fun _ => Throw "no provider") (fun a => Some (Resolver.mkKeys a a))
    Resolver.publicKey (Resolver.mkOptions false true false)
  = Ok (Resolver.mkKeys Resolver.publicKey Resolver.publicKey)
  /\ Resolver.lookupRecipient (fun _ => Throw "no provider") (fun a => Some a)
       (fun _ => Throw "no provider") (fun a => Some (Resolver.mkKeys a a))
       Resolver.publicKey Resolver.defaultOptions
     = Throw Resolver.UnsupportedIdentifier.
Proof.
  assert (Hid : Resolver.parseIdentifier Resolver.publicKey
                = Resolver.RawPublicKey Resolver.publicKey)
    by (vm_compute; reflexivity).
  assert (HP : Resolver.pointFromPublicKey Resolver.publicKey
               = Ok (ec.Affine
                  0x458465db23fe07d148c8c9078d8b67497998a66f4f2aa479973a9cbaaf8b5a96
                  0xe6ba166a389b8f794b68010849b64b91343e72c7fa4cfcc178607c4b1d4870ed))
    by (vm_compute; reflexivity).
  split.
  - apply (lookupRecipient_public_key _ _ _ _ _ (Resolver.mkOptions false true false)
             _ Hid HP). reflexivity.
  - apply (lookupRecipient_public_key _ _ _ _ _ Resolver.defaultOptions _ Hid HP).
    reflexivity.
Defined.

(** ** The field of the curve: reduction and range *)

Lemma shiftr_256 (r : Z) : Z.shiftr r 256 = r / 2 ^ 256.
Proof. apply Z.shiftr_div_pow2. lia. Qed.

Lemma land_mask256 (r : Z) : Z.land r ec.mask256 = r mod 2 ^ 256.
Proof. change ec.mask256 with (Z.ones 256). apply Z.land_ones. lia. Qed.

(** One round of the reduction: [HI * K + LO] is congruent to the number
    modulo [p = 2 ^ 256 - K]. *)
Lemma ireduce_fold (r : Z) :
  0 <= r ->
  Z.shiftr r 256 * ec.K + Z.land r ec.mask256 = (r / 2 ^ 256) * ec.K + r mod 2 ^ 256
  /\ (Z.shiftr r 256 * ec.K + Z.land r ec.mask256) mod ec.p = r mod ec.p.
Proof.
  intros Hr. rewrite shiftr_256, land_mask256. split; [reflexivity|].
  pose proof (Z.div_mod r (2 ^ 256) ltac:(lia)) as Hdm.
  replace r with ((r / 2 ^ 256) * ec.K + r mod 2 ^ 256 + (r / 2 ^ 256) * ec.p) at 3
    by (unfold ec.K, ec.p; lia).
  rewrite Z_mod_plus_full. reflexivity.
Qed.

Lemma ireduceLoop_exit (fuel : nat) (r : Z) :
  0 <= r ->
  (r / 2 ^ 256) * ec.K + r mod 2 ^ 256 < 2 ^ 256 ->
  ec.ireduceLoop (S fuel) r = (r / 2 ^ 256) * ec.K + r mod 2 ^ 256.
Proof.
  intros Hr Hlt. cbn [ec.ireduceLoop]. cbv zeta.
  destruct (ireduce_fold r Hr) as [-> _].
  assert (Hnn : 0 <= r / 2 ^ 256 * ec.K + r mod 2 ^ 256).
  { pose proof (Z.div_pos r (2 ^ 256) Hr ltac:(lia)).
    pose proof (Z.mod_pos_bound r (2 ^ 256) ltac:(lia)). unfold ec.K. lia. }
  rewrite shiftr_256, Z.div_small by lia. reflexivity.
Qed.

Lemma ireduceLoop_step (fuel : nat) (r : Z) :
  0 <= r ->
  2 ^ 256 <= (r / 2 ^ 256) * ec.K + r mod 2 ^ 256 ->
  ec.ireduceLoop (S fuel) r
  = ec.ireduceLoop fuel ((r / 2 ^ 256) * ec.K + r mod 2 ^ 256).
Proof.
  intros Hr Hge. cbn [ec.ireduceLoop]. cbv zeta.
  destruct (ireduce_fold r Hr) as [-> _].
  destruct (Z.eqb_spec (Z.shiftr (r / 2 ^ 256 * ec.K + r mod 2 ^ 256) 256) 0)
    as [Hz|Hz]; [|reflexivity].
  rewrite shiftr_256 in Hz. apply Z.div_small_iff in Hz; lia.
Qed.

(** The loop, from the last round backwards: a number just above
    [2 ^ 256], a number below [2 ^ 256 (K + 1)], a product of two field
    elements. *)
Lemma ireduceLoop_last (fuel : nat) (r : Z) :
  0 <= r < 2 ^ 256 + ec.K * ec.K ->
  0 <= ec.ireduceLoop (S fuel) r < 2 ^ 256
  /\ ec.ireduceLoop (S fuel) r mod ec.p = r mod ec.p.
Proof.
  intros [Hr Hlt].
  pose proof (Z.div_mod r (2 ^ 256) ltac:(lia)) as Hdm.
  pose proof (Z.mod_pos_bound r (2 ^ 256) ltac:(lia)) as Hm.
  pose proof (Z.div_pos r (2 ^ 256) Hr ltac:(lia)) as Hq.
  destruct (ireduce_fold r Hr) as [Heq Hmod]. rewrite Heq in Hmod.
  rewrite ireduceLoop_exit by (unfold ec.K in *; lia).
  split; [unfold ec.K in *; lia | exact Hmod].
Qed.

Lemma ireduceLoop_middle (fuel : nat) (r : Z) :
  0 <= r < 2 ^ 256 * (ec.K + 1) ->
  0 <= ec.ireduceLoop (S (S fuel)) r < 2 ^ 256
  /\ ec.ireduceLoop (S (S fuel)) r mod ec.p = r mod ec.p.
Proof.
  intros [Hr Hlt].
  pose proof (Z.div_mod r (2 ^ 256) ltac:(lia)) as Hdm.
  pose proof (Z.mod_pos_bound r (2 ^ 256) ltac:(lia)) as Hm.
  pose proof (Z.div_pos r (2 ^ 256) Hr ltac:(lia)) as Hq.
  destruct (ireduce_fold r Hr) as [Heq Hmod]. rewrite Heq in Hmod.
  destruct (Z.lt_ge_cases (r / 2 ^ 256 * ec.K + r mod 2 ^ 256) (2 ^ 256)) as [Hs|Hs].
  - rewrite ireduceLoop_exit by assumption.
    split; [unfold ec.K in *; lia | exact Hmod].
  - rewrite ireduceLoop_step by assumption.
    destruct (ireduceLoop_last fuel (r / 2 ^ 256 * ec.K + r mod 2 ^ 256))
      as [Hrange Hcong]; [unfold ec.K in *; lia|].
    split; [exact Hrange | congruence].
Qed.

Lemma ireduceLoop_product (fuel : nat) (r : Z) :
  0 <= r < 2 ^ 256 * 2 ^ 256 ->
  0 <= ec.ireduceLoop (S (S (S fuel))) r < 2 ^ 256
  /\ ec.ireduceLoop (S (S (S fuel))) r mod ec.p = r mod ec.p.
Proof.
  intros [Hr Hlt].
  pose proof (Z.div_mod r (2 ^ 256) ltac:(lia)) as Hdm.
  pose proof (Z.mod_pos_bound r (2 ^ 256) ltac:(lia)) as Hm.
  pose proof (Z.div_pos r (2 ^ 256) Hr ltac:(lia)) as Hq.
  destruct (ireduce_fold r Hr) as [Heq Hmod]. rewrite Heq in Hmod.
  destruct (Z.lt_ge_cases (r / 2 ^ 256 * ec.K + r mod 2 ^ 256) (2 ^ 256)) as [Hs|Hs].
  - rewrite ireduceLoop_exit by assumption.
    split; [unfold ec.K in *; lia | exact Hmod].
  - rewrite ireduceLoop_step by assumption.
    destruct (ireduceLoop_middle fuel (r / 2 ^ 256 * ec.K + r mod 2 ^ 256))
      as [Hrange Hcong]; [unfold ec.K in *; lia|].
    split; [exact Hrange | congruence].
Qed.

(** The reduction of bn.js is the remainder modulo [p]. *)
Lemma ireduce_mod (num : Z) :
  0 <= num < 2 ^ 256 * 2 ^ 256 -> ec.ireduce num = num mod ec.p.
Proof.
  intros Hnum. unfold ec.ireduce. cbv zeta.
  change 8%nat with (S (S (S 5))).
  destruct (ireduceLoop_product 5 num Hnum) as [Hrange Hcong].
  set (r := ec.ireduceLoop (S (S (S 5))) num) in *.
  rewrite <- Hcong.
  destruct (Z.ltb_spec r ec.p) as [Hlt|Hge].
  - symmetry. apply Z.mod_small. lia.
  - apply (Z.mod_unique_pos r ec.p 1); unfold ec.p in *; lia.
Qed.

Lemma redMul_mod (u v : Z) :
  0 <= u < ec.p -> 0 <= v < ec.p -> ec.redMul u v = (u * v) mod ec.p.
Proof.
  intros Hu Hv. unfold ec.redMul. apply ireduce_mod.
  split; [apply Z.mul_nonneg_nonneg; lia|].
  apply Z.mul_lt_mono_nonneg; unfold ec.p in *; lia.
Qed.

Lemma redMul_range (u v : Z) :
  0 <= u < ec.p -> 0 <= v < ec.p -> 0 <= ec.redMul u v < ec.p.
Proof.
  intros Hu Hv. rewrite redMul_mod by assumption.
  apply Z.mod_pos_bound. reflexivity.
Qed.

Lemma redAdd_range (u v : Z) :
  0 <= u < ec.p -> 0 <= v < ec.p -> 0 <= ec.redAdd u v < ec.p.
Proof.
  intros Hu Hv. unfold ec.redAdd. cbv zeta.
  destruct (Z.leb_spec ec.p (u + v)); lia.
Qed.

Lemma redSub_range (u v : Z) :
  0 <= u < ec.p -> 0 <= v < ec.p -> 0 <= ec.redSub u v < ec.p.
Proof.
  intros Hu Hv. unfold ec.redSub. cbv zeta.
  destruct (Z.ltb_spec (u - v) 0); lia.
Qed.

Lemma redNeg_range (u : Z) : 0 <= u < ec.p -> 0 <= ec.redNeg u < ec.p.
Proof.
  intros Hu. unfold ec.redNeg. destruct (Z.eqb_spec u 0); lia.
Qed.

Lemma redInvm_range (u : Z) : 0 <= ec.redInvm u < ec.p.
Proof. unfold ec.redInvm. apply Z.mod_pos_bound. reflexivity. Qed.

Lemma coefficient_a_range : 0 <= ec.a < ec.p.
Proof. split; [discriminate | reflexivity]. Qed.

(** Range of an expression of the reduction context. *)
Ltac field_range :=
  repeat
    match goal with
    | |- _ <= ec.redMul _ _ < _ => apply redMul_range
    | |- _ <= ec.redAdd _ _ < _ => apply redAdd_range
    | |- _ <= ec.redSub _ _ < _ => apply redSub_range
    | |- _ <= ec.redNeg _ < _ => apply redNeg_range
    | |- _ <= ec.redInvm _ < _ => apply redInvm_range
    | |- _ <= ec.a < _ => apply coefficient_a_range
    | |- _ => assumption
    end.

(** ** The points stay reduced *)

Lemma point_reduced (x y : Z) : reducedPoint (ec.point x y).
Proof. split; apply Z.mod_pos_bound; reflexivity. Qed.

Lemma g_reduced : reducedPoint ec.g.
Proof. repeat split; discriminate. Qed.

Lemma dbl_reduced (P : ec.Point) : reducedPoint P -> reducedPoint (ec.dbl P).
Proof.
  destruct P as [|x y]; [trivial|]. intros [Hx Hy]. unfold ec.dbl. cbv zeta.
  destruct (ec.redAdd y y =? 0); [exact I|].
  unfold ec.redSqr. split; field_range.
Qed.

Lemma neg_reduced (P : ec.Point) : reducedPoint P -> reducedPoint (ec.neg P).
Proof.
  destruct P as [|x y]; [trivial|]. intros [Hx Hy]. split; field_range.
Qed.

Lemma add_reduced (P Q : ec.Point) :
  reducedPoint P -> reducedPoint Q -> reducedPoint (ec.add P Q).
Proof.
  intros HP HQ. destruct P as [|x1 y1]; [exact HQ|].
  destruct Q as [|x2 y2]; [exact HP|].
  unfold ec.add.
  destruct (ec.eq _ _); [now apply dbl_reduced|].
  destruct (ec.eq _ _); [exact I|].
  destruct (x1 =? x2); [exact I|].
  destruct HP as [Hx1 Hy1], HQ as [Hx2 Hy2]. cbv zeta.
  assert (Hc : 0 <= (if ec.redSub y1 y2 =? 0 then ec.redSub y1 y2
                     else ec.redMul (ec.redSub y1 y2) (ec.redInvm (ec.redSub x1 x2)))
               < ec.p)
    by (destruct (ec.redSub y1 y2 =? 0); field_range).
  unfold ec.redSqr. split; field_range.
Qed.

Lemma mulPos_reduced (P : ec.Point) (k : positive) :
  reducedPoint P -> reducedPoint (ec.mulPos P k).
Proof.
  intros HP. induction k as [k IH|k IH|]; cbn [ec.mulPos].
  - apply add_reduced; [apply dbl_reduced, IH | exact HP].
  - apply dbl_reduced, IH.
  - exact HP.
Qed.

(** Every multiple of a reduced point is reduced. *)
Lemma mulBN_reduced (P : ec.Point) (k : Z) :
  reducedPoint P -> reducedPoint (ec.mulBN P k).
Proof.
  intros HP. destruct k as [|k|k]; cbn [ec.mulBN].
  - exact I.
  - now apply mulPos_reduced.
  - now apply neg_reduced, mulPos_reduced.
Qed.

(** ** Width of a coordinate *)

Lemma length_coordinate (v : Z) :
  0 <= v < ec.p -> (String.length (toString16 v) <= 64)%nat.
Proof.
  intros [_ Hv]. apply length_toString16_le; [lia | now apply coordinate_below_16_64].
Qed.

(** A coordinate has 64 digits exactly when it is [16 ^ 63] or more. *)
Lemma length_coordinate_full (v : Z) :
  0 <= v < ec.p ->
  String.length (toString16 v) = 64%nat <-> 16 ^ 63 <= v.
Proof.
  intros Hv. pose proof (length_coordinate v Hv) as Hle.
  rewrite length_toString16 in *. split.
  - intros H64. destruct (Z.lt_ge_cases v (16 ^ 63)) as [Hlt|Hge]; [|exact Hge].
    assert (hexLen v <= 63)%nat by (apply hexLen_bound; [lia | exact Hlt]). lia.
  - intros Hge. unfold hexLen in *.
    destruct (Z.leb_spec v 0) as [H0|Hpos]; [lia|].
    assert (Hlog : 252 <= Z.log2 v)
      by (apply Z.log2_le_pow2; [exact Hpos | exact Hge]).
    assert (63 <= Z.log2 v / 4) by (apply Z.div_le_lower_bound; lia).
    lia.
Qed.

Lemma length_pad32ByteHex_coordinate (v : Z) :
  0 <= v < ec.p -> String.length (pad32ByteHex (toString16 v)) = 64%nat.
Proof.
  intros Hv. pose proof (length_coordinate v Hv).
  rewrite length_pad32ByteHex. lia.
Qed.

(** ** Slices of a concatenation *)

Lemma length_zero_empty (s : string) : String.length s = 0%nat -> s = "".
Proof. destruct s; [reflexivity | discriminate]. Qed.

Lemma sliceTo_append (s t : string) : sliceTo (String.length s) (s ++ t) = s.
Proof. induction s as [|c s IH]; [now destruct t | simpl; now rewrite IH]. Qed.

Lemma sliceFrom_append (s t : string) : sliceFrom (String.length s) (s ++ t) = t.
Proof. induction s as [|c s IH]; [reflexivity | exact IH]. Qed.

Lemma append_inj_length (s s' t t' : string) :
  String.length s = String.length s' -> s ++ t = s' ++ t' -> s = s' /\ t = t'.
Proof.
  intros Hlen H. split.
  - rewrite <- (sliceTo_append s t), H, Hlen. apply sliceTo_append.
  - rewrite <- (sliceFrom_append s t), H, Hlen. apply sliceFrom_append.
Qed.

(** ** Buffers and their hexadecimal form *)

Lemma zByte_byteZ (b : byte) : zByte (byteZ b) = b.
Proof.
  unfold zByte. rewrite Z.mod_small by apply byteZ_range.
  unfold byteZ. rewrite N2Z.id, Byte.of_to_N. reflexivity.
Qed.

Lemma fromHex_byteHex (b : byte) (rest : string) :
  Buffer.fromHex (byteHex b rest) = b :: Buffer.fromHex rest.
Proof.
  pose proof (byteZ_range b) as Hb. unfold byteHex. cbn [Buffer.fromHex].
  rewrite hexValue_hexDigit
    by (split; [apply Z.div_pos; lia | apply Z.div_lt_upper_bound; lia]).
  rewrite hexValue_hexDigit by (apply Z.mod_pos_bound; lia).
  rewrite <- Z.div_mod by lia. now rewrite zByte_byteZ.
Qed.

(** Reading back what [toString('hex')] wrote. *)
Lemma fromHex_toHex (buf : list byte) : Buffer.fromHex (Buffer.toHex buf) = buf.
Proof.
  unfold Buffer.toHex. induction buf as [|b buf IH]; [reflexivity|].
  cbn [fold_right]. rewrite fromHex_byteHex, IH. reflexivity.
Qed.

Lemma length_toHex (buf : list byte) :
  String.length (Buffer.toHex buf) = (2 * List.length buf)%nat.
Proof.
  unfold Buffer.toHex. induction buf as [|b buf IH]; [reflexivity|].
  cbn [fold_right List.length]. unfold byteHex in *. cbn [String.length]. lia.
Qed.

Lemma allHex_toHex (buf : list byte) : allHex (Buffer.toHex buf) = true.
Proof.
  unfold Buffer.toHex. induction buf as [|b buf IH]; [reflexivity|].
  cbn [fold_right]. unfold byteHex in *. cbn [allHex].
  destruct (hexDigit_isHex (byteZ b / 16)) as [h ->].
  destruct (hexDigit_isHex (byteZ b mod 16)) as [l ->]. exact IH.
Qed.

(** A buffer made from digits has one byte for every two of them. *)
Lemma length_fromHex (s : string) :
  allHex s = true -> List.length (Buffer.fromHex s) = (String.length s / 2)%nat.
Proof.
  induction s as [|c|c1 c2 s IH] using string_pairs_ind; try reflexivity.
  intros H. cbn [allHex] in H. cbn [Buffer.fromHex].
  destruct (hexValue c1); [|discriminate]. destruct (hexValue c2); [|discriminate].
  cbn [List.length String.length]. rewrite IH by exact H.
  change (S (S (String.length s))) with (1 * 2 + String.length s)%nat.
  rewrite Nat.div_add_l by lia. lia.
Qed.

(** ** Keccak: the digest has 32 bytes *)

Lemma length_round (A : list Z) (rc : Z) : List.length (Keccak.round A rc) = 25%nat.
Proof.
  unfold Keccak.round, Keccak.chi.
  set (B := Keccak.rhoPi (Keccak.theta A)).
  set (f := fun i : nat => _).
  change (map f Keccak.indices) with (f 0%nat :: map f (seq 1 24)).
  cbn [Keccak.iota List.length]. rewrite length_map, length_seq. reflexivity.
Qed.

Lemma length_f1600 (A : list Z) : List.length (Keccak.f1600 A) = 25%nat.
Proof.
  unfold Keccak.f1600.
  change Keccak.RC with (removelast Keccak.RC ++ [0x8000000080008008])%list.
  rewrite fold_left_app. cbn [fold_left]. apply length_round.
Qed.

Lemma length_absorb (blocks : nat) (A : list Z) (msg : list byte) :
  List.length A = 25%nat -> List.length (Keccak.absorb blocks A msg) = 25%nat.
Proof.
  revert A msg; induction blocks as [|k IH]; intros A msg HA; [exact HA|].
  cbn [Keccak.absorb]. apply IH. apply length_f1600.
Qed.

Lemma length_bytesOfLane (k : nat) (v : Z) : List.length (Keccak.bytesOfLane k v) = k.
Proof.
  revert v; induction k as [|k IH]; intros v; [reflexivity|].
  cbn [Keccak.bytesOfLane List.length]. now rewrite IH.
Qed.

Lemma length_digest (msg : list byte) : List.length (Keccak.digest msg) = 32%nat.
Proof.
  unfold Keccak.digest. cbv zeta.
  set (A := Keccak.absorb _ _ _).
  assert (HA : List.length A = 25%nat) by (apply length_absorb, repeat_length).
  destruct A as [|a0 [|a1 [|a2 [|a3 A]]]]; try discriminate HA.
  cbn [firstn flat_map]. rewrite !length_app, !length_bytesOfLane. reflexivity.
Qed.

(** ** Results of [bind] *)

Lemma bind_Ok_inv {A B : Type} (r : result A) (k : A -> result B) (b : B) :
  bind r k = Ok b -> exists a, r = Ok a /\ k a = Ok b.
Proof. destruct r as [a|msg]; [intros H; now exists a | discriminate]. Qed.

(** ** The points the script reads coordinates from *)

Lemma mul_reduced (P Q : ec.Point) (k : string) :
  reducedPoint P -> ec.mul P k = Ok Q -> reducedPoint Q.
Proof.
  intros HP H. unfold ec.mul in H.
  destruct (bind_Ok_inv _ _ _ H) as [kv [_ [= <-]]]. now apply mulBN_reduced.
Qed.

Lemma keyFromPublic_point (x y : string) (key : ec.KeyPair) :
  ec.keyFromPublic x y = Ok key ->
  exists xv yv, parse16 x = Ok xv /\ parse16 y = Ok yv
                /\ key = ec.mkKeyPair None (Some (ec.point xv yv)).
Proof.
  unfold ec.keyFromPublic.
  destruct (String.eqb x "" && String.eqb y ""); [discriminate|].
  destruct (String.eqb x "" || String.eqb y ""); [discriminate|].
  intros H. destruct (bind_Ok_inv _ _ _ H) as [xv [Hx H']].
  destruct (bind_Ok_inv _ _ _ H') as [yv [Hy [= <-]]].
  exists xv, yv. auto.
Qed.

(** The check of lines 93-95 always passes. *)
Lemma receiverPublicKeyEC_keyFromPublic (receiver : Wallet) :
  receiverPublicKeyEC receiver
  = ec.keyFromPublic (receiverPublicKeyX receiver) (receiverPublicKeyY receiver).
Proof.
  unfold receiverPublicKeyEC, receiverPublicKeyX, receiverPublicKeyY.
  rewrite sliceTo_sliceFrom, String.eqb_refl. reflexivity.
Qed.

Lemma stealthPublicKeyEC_reduced (receiver : Wallet) (r : string) (P : ec.Point) :
  stealthPublicKeyEC receiver r = Ok P -> reducedPoint P.
Proof.
  unfold stealthPublicKeyEC. intros H.
  destruct (bind_Ok_inv _ _ _ H) as [key [Hkey H']].
  rewrite receiverPublicKeyEC_keyFromPublic in Hkey.
  destruct (keyFromPublic_point _ _ _ Hkey) as [xv [yv [_ [_ ->]]]].
  cbn [ec.getPublic ec.pub bind] in H'.
  exact (mul_reduced _ _ _ (point_reduced xv yv) H').
Qed.

Lemma mul_g_reduced (k : string) (P : ec.Point) :
  ec.mul ec.g k = Ok P -> reducedPoint P.
Proof. apply mul_reduced, g_reduced. Qed.

(** ** The only error of [new BN(s, 16)] *)

Lemma parseAcc_Throw (s : string) (acc : Z) (msg : string) :
  parseAcc s acc = Throw msg -> msg = "Invalid character".
Proof.
  revert acc; induction s as [|c s IH]; intros acc; cbn [parseAcc]; [discriminate|].
  destruct (hexValue c); [apply IH | now intros [= <-]].
Qed.

(** Digits of a number below [16 ^ length]. *)
Lemma parseAcc_bound (s : string) (acc v : Z) :
  0 <= acc -> parseAcc s acc = Ok v ->
  v < (acc + 1) * 16 ^ Z.of_nat (String.length s).
Proof.
  revert acc; induction s as [|c s IH]; intros acc Hacc; cbn [parseAcc].
  - intros [= <-]. cbn [String.length]. change (16 ^ Z.of_nat 0) with 1. lia.
  - destruct (hexValue c) as [d|] eqn:Hc; [|discriminate].
    apply hexValue_range in Hc. intros H. apply IH in H; [|lia].
    cbn [String.length]. rewrite Nat2Z.inj_succ, Z.pow_succ_r by lia.
    assert (0 < 16 ^ Z.of_nat (String.length s)) by (apply Z.pow_pos_nonneg; lia).
    nia.
Qed.

Lemma parse16_bound (s : string) (v : Z) :
  parse16 s = Ok v -> v < 16 ^ Z.of_nat (String.length s).
Proof.
  intros H. apply parseAcc_bound in H; [|lia]. lia.
Qed.

(** ** Leading zero bytes *)

Lemma length_trimZeroBytes (digits : string) :
  (String.length (BigNumber.trimZeroBytes digits) <= String.length digits)%nat
  /\ Nat.odd (String.length (BigNumber.trimZeroBytes digits))
     = Nat.odd (String.length digits).
Proof.
  induction digits as [|c|c1 c2 more IH] using string_pairs_ind;
    try (split; [apply Nat.le_refl | reflexivity]).
  cbn [BigNumber.trimZeroBytes].
  destruct (Ascii.eqb c1 "0" && Ascii.eqb c2 "0");
    [|split; [apply Nat.le_refl | reflexivity]].
  destruct more as [|c3 more]; [split; [apply Nat.le_refl | reflexivity]|].
  destruct IH as [IHle IHodd]. split.
  - cbn [String.length] in *. lia.
  - rewrite IHodd. reflexivity.
Qed.

Lemma trimZeroBytes_idempotent (digits : string) :
  BigNumber.trimZeroBytes (BigNumber.trimZeroBytes digits)
  = BigNumber.trimZeroBytes digits.
Proof.
  induction digits as [|c|c1 c2 more IH] using string_pairs_ind; try reflexivity.
  cbn [BigNumber.trimZeroBytes].
  destruct (Ascii.eqb c1 "0" && Ascii.eqb c2 "0") eqn:Hz.
  - destruct more as [|c3 more]; [|exact IH].
    cbn [BigNumber.trimZeroBytes]. rewrite Hz. reflexivity.
  - cbn [BigNumber.trimZeroBytes]. rewrite Hz. reflexivity.
Qed.

(** [toHex] on a prefixed string of an even, positive number of digits. *)
Lemma toHex_even (s : string) :
  s <> "" -> Nat.odd (String.length s) = false ->
  BigNumber.toHex ("0x" ++ s) = "0x" ++ BigNumber.trimZeroBytes s.
Proof.
  intros Hne Heven. unfold BigNumber.toHex.
  change (sliceTo 2 ("0x" ++ s)) with "0x". cbn [String.eqb Ascii.eqb Bool.eqb].
  destruct s as [|c s]; [contradiction|].
  change (String.eqb ("0x" ++ String c s) "0x") with false. cbv iota.
  change (String.length ("0x" ++ String c s)) with (S (S (String.length (String c s)))).
  change (Nat.odd (S (S (String.length (String c s)))))
    with (Nat.odd (String.length (String c s))).
  rewrite Heven. reflexivity.
Qed.

Lemma from_even (s : string) :
  s <> "" -> allHex s = true -> Nat.odd (String.length s) = false ->
  BigNumber.from ("0x" ++ s) = Ok (BigNumber.mk ("0x" ++ BigNumber.trimZeroBytes s)).
Proof.
  intros Hne Hall Heven. unfold BigNumber.from, BigNumber.isHexNumber.
  change (sliceTo 2 ("0x" ++ s)) with "0x".
  change (sliceFrom 2 ("0x" ++ s)) with s.
  rewrite Hall, (eqb_empty_false s Hne), (toHex_even s Hne Heven). reflexivity.
Qed.

Lemma toHex_nonempty (b : byte) (arr : list byte) : Buffer.toHex (b :: arr) <> "".
Proof. discriminate. Qed.

Lemma odd_length_toHex (buf : list byte) :
  Nat.odd (String.length (Buffer.toHex buf)) = false.
Proof.
  rewrite length_toHex, Nat.odd_mul. reflexivity.
Qed.

(** The random value is the hexadecimal form of the array without its
    leading zero bytes. *)
Lemma randomValue_trimZeroBytes (b : byte) (arr : list byte) :
  randomValue (b :: arr) = Ok (BigNumber.trimZeroBytes (Buffer.toHex (b :: arr))).
Proof.
  unfold randomValue, BigNumber.fromBytes.
  change (utils.hexlify (b :: arr)) with ("0x" ++ Buffer.toHex (b :: arr)).
  rewrite (from_even _ (toHex_nonempty b arr) (allHex_toHex _) (odd_length_toHex _)).
  reflexivity.
Qed.

Lemma trimZeroBytes_byte (b : byte) (rest : string) :
  b <> x00 -> BigNumber.trimZeroBytes (byteHex b rest) = byteHex b rest.
Proof. intros Hb. destruct b; try reflexivity. contradiction. Qed.

Lemma trimZeroBytes_zero_byte (b : byte) (arr : list byte) :
  BigNumber.trimZeroBytes (Buffer.toHex (x00 :: b :: arr))
  = BigNumber.trimZeroBytes (Buffer.toHex (b :: arr)).
Proof. reflexivity. Qed.

Lemma trimZeroBytes_zero_bytes (k : nat) (b : byte) (arr : list byte) :
  BigNumber.trimZeroBytes (Buffer.toHex (repeat x00 k ++ b :: arr))
  = BigNumber.trimZeroBytes (Buffer.toHex (b :: arr)).
Proof.
  induction k as [|k IH]; [reflexivity|].
  rewrite <- IH. cbn [repeat app].
  destruct (repeat x00 k ++ b :: arr)%list as [|b' arr'] eqn:Hl.
  - destruct k; discriminate Hl.
  - apply trimZeroBytes_zero_byte.
Qed.

Lemma trimZeroBytes_all_zero (k : nat) :
  BigNumber.trimZeroBytes (Buffer.toHex (repeat x00 (S k))) = "00".
Proof.
  induction k as [|k IH]; [reflexivity|].
  rewrite <- IH. apply (trimZeroBytes_zero_byte x00 (repeat x00 k)).
Qed.

(** ** The private key of the stealth address, for any private key *)

(** Lines 148-157 come down to [toBigNumber] of the product modulo [n]. *)
Lemma stealthPrivateKey_toBigNumber (receiver : Wallet) (r : string) (d rv : Z) :
  parse16 (sliceFrom 2 (privateKey receiver)) = Ok d ->
  r <> "" ->
  parse16 r = Ok rv ->
  stealthPrivateKey receiver r = BigNumber.toBigNumber ((d mod ec.n * rv) mod ec.n).
Proof.
  intros Hd Hne Hr.
  destruct (stealthPrivateKeyFull_product receiver r d rv Hd Hne Hr)
    as [full [Hfull [Hnefull Hp]]].
  unfold stealthPrivateKey. rewrite Hfull, bind_Ok.
  destruct (BigNumber_from_digits full _ Hnefull Hp) as [t [-> [_ [_ Ht]]]].
  rewrite bind_Ok. unfold BigNumber.mod_.
  assert (Hn : parse16 (toString16 ec.n) = Ok ec.n)
    by (apply parse16_toString16; discriminate).
  destruct (BigNumber_from_digits _ _ (toString16_nonempty _) Hn)
    as [tn [-> [_ [_ Htn]]]].
  rewrite bind_Ok, !toBN_prefixed, Htn, bind_Ok, Ht, bind_Ok.
  change (ec.n =? 0) with false. reflexivity.
Qed.

Lemma product_mod_n_range (d rv : Z) :
  0 <= (d mod ec.n * rv) mod ec.n < ec.n.
Proof. apply Z.mod_pos_bound, order_positive. Qed.

Lemma stealthPrivateKey_value (receiver : Wallet) (r : string) (d rv : Z) :
  parse16 (sliceFrom 2 (privateKey receiver)) = Ok d ->
  r <> "" ->
  parse16 r = Ok rv ->
  exists t, stealthPrivateKey receiver r = Ok (BigNumber.mk ("0x" ++ t))
            /\ parse16 t = Ok ((d mod ec.n * rv) mod ec.n).
Proof.
  intros Hd Hne Hr. rewrite (stealthPrivateKey_toBigNumber receiver r d rv Hd Hne Hr).
  destruct (toBigNumber_digits _ (proj1 (product_mod_n_range d rv)))
    as [tk [Hkey [_ [_ Hparse]]]].
  exists tk. split; [exact Hkey | exact Hparse].
Qed.

(** The string of [toBigNumber(v)]: ["0x"] and an even number of digits,
    at most one more than [v] has. *)
Lemma toBigNumber_shape (v : Z) :
  0 <= v ->
  exists t, BigNumber.toBigNumber v = Ok (BigNumber.mk ("0x" ++ t))
            /\ parse16 t = Ok v
            /\ Nat.odd (String.length t) = false
            /\ (String.length t <= S (hexLen v))%nat.
Proof.
  intros Hv. unfold BigNumber.toBigNumber.
  rewrite toHex_unprefixed by apply allHex_toString16.
  pose proof (toString16_nonempty v) as Hne.
  pose proof (allHex_toString16 v) as Hall.
  pose proof (parse16_toString16 v Hv) as Hparse.
  pose proof (length_toString16 v) as Hlen.
  set (s := toString16 v) in *.
  assert (Hshape : exists s', BigNumber.toHex ("0x" ++ s) = "0x" ++ BigNumber.trimZeroBytes s'
                              /\ s' <> "" /\ allHex s' = true /\ parse16 s' = Ok v
                              /\ Nat.odd (String.length s') = false
                              /\ (String.length s' <= S (hexLen v))%nat).
  { destruct (Nat.odd (String.length s)) eqn:Hodd.
    - exists (String "0" s). split; [|split; [discriminate|split; [exact Hall|split]]].
      + unfold BigNumber.toHex.
        change (sliceTo 2 ("0x" ++ s)) with "0x". cbn [String.eqb Ascii.eqb Bool.eqb].
        destruct s as [|c s0]; [contradiction|].
        change (String.eqb ("0x" ++ String c s0) "0x") with false. cbv iota.
        change (String.length ("0x" ++ String c s0))
          with (S (S (String.length (String c s0)))).
        change (Nat.odd (S (S (String.length (String c s0)))))
          with (Nat.odd (String.length (String c s0))).
        rewrite Hodd. reflexivity.
      + exact Hparse.
      + cbn [String.length]. rewrite Nat.odd_succ, <- Nat.negb_odd, Hodd.
        split; [reflexivity | lia].
    - exists s. split; [apply toHex_even; assumption|].
      split; [exact Hne|]. split; [exact Hall|]. split; [exact Hparse|].
      split; [exact Hodd | lia]. }
  destruct Hshape as [s' [-> [Hne' [Hall' [Hparse' [Hodd' Hlen']]]]]].
  destruct (length_trimZeroBytes s') as [Hle Hpar].
  rewrite from_even.
  - rewrite trimZeroBytes_idempotent. eexists. split; [reflexivity|].
    split; [|split; [congruence | lia]].
    unfold parse16 in *. rewrite parseAcc_trimZeroBytes. exact Hparse'.
  - now apply trimZeroBytes_nonempty.
  - now apply allHex_trimZeroBytes.
  - congruence.
Qed.

(** ** Step 5: decoding the recipient's public key *)

(** X1: the check of lines 93-95 is dead code.  For every wallet the two
    slices put together are the key they were cut from, so the error
    "receiver's public key coordinates were incorrectly generated" is never
    thrown and the step is [ec.keyFromPublic] of the two slices. *)
Theorem receiverPublicKeyEC_split_check (receiver : Wallet) :
  receiverPublicKeyX receiver ++ receiverPublicKeyY receiver = receiverPublicKey receiver
  /\ receiverPublicKeyEC receiver
     = ec.keyFromPublic (receiverPublicKeyX receiver) (receiverPublicKeyY receiver)
  /\ receiverPublicKeyEC receiver
     <> Throw "receiver's public key coordinates were incorrectly generated".
Proof.
  split; [apply sliceTo_sliceFrom|].
  split; [apply receiverPublicKeyEC_keyFromPublic|].
  rewrite receiverPublicKeyEC_keyFromPublic. unfold ec.keyFromPublic.
  destruct (_ && _); [discriminate|].
  destruct (_ || _); [discriminate|]. unfold parse16.
  destruct (parseAcc (receiverPublicKeyX receiver) 0) as [xv|msg] eqn:Hx.
  - rewrite bind_Ok.
    destruct (parseAcc (receiverPublicKeyY receiver) 0) as [yv|msg] eqn:Hy.
    + discriminate.
    + apply parseAcc_Throw in Hy. subst msg. discriminate.
  - apply parseAcc_Throw in Hx. subst msg. discriminate.
Qed.

(** X2: the two errors of [ec.keyFromPublic] on a short key.  A public
    key of 4 characters or fewer leaves nothing for X and Y and is refused
    with "Unknown point format"; a key of 5 to 68 characters leaves
    nothing for Y and is refused with "Need both x and y coordinate"; a
    longer key gets neither error. *)
Theorem receiverPublicKeyEC_short_key (receiver : Wallet) :
  (receiverPublicKeyEC receiver = Throw "Unknown point format"
   <-> (String.length (publicKey receiver) <= 4)%nat)
  /\ (receiverPublicKeyEC receiver = Throw "Need both x and y coordinate"
      <-> (4 < String.length (publicKey receiver) <= 68)%nat).
Proof.
  rewrite receiverPublicKeyEC_keyFromPublic. unfold ec.keyFromPublic.
  pose proof (length_sliceTo 64 (receiverPublicKey receiver)) as HX.
  pose proof (length_sliceFrom 64 (receiverPublicKey receiver)) as HY.
  pose proof (length_sliceFrom 4 (publicKey receiver)) as HXY.
  fold (receiverPublicKey receiver) in HXY.
  fold (receiverPublicKeyX receiver) in HX. fold (receiverPublicKeyY receiver) in HY.
  destruct (Nat.le_gt_cases (String.length (publicKey receiver)) 4) as [H4|H4].
  - assert (HXe : receiverPublicKeyX receiver = "") by (apply length_zero_empty; lia).
    assert (HYe : receiverPublicKeyY receiver = "") by (apply length_zero_empty; lia).
    rewrite HXe, HYe. cbn [String.eqb andb].
    split; (split; [intros H; try discriminate H; lia | intros H; try reflexivity; lia]).
  - rewrite (nonempty_not_eqb (receiverPublicKeyX receiver)) by lia. cbn [andb orb].
    destruct (Nat.le_gt_cases (String.length (publicKey receiver)) 68) as [H68|H68].
    + assert (HYe : receiverPublicKeyY receiver = "")
        by (apply length_zero_empty; lia).
      rewrite HYe. cbn [String.eqb].
      split; (split; [intros H; try discriminate H; lia | intros H; try reflexivity; lia]).
    + rewrite (nonempty_not_eqb (receiverPublicKeyY receiver)) by lia.
      assert (Hparse : forall msg,
                 (xv <- parse16 (receiverPublicKeyX receiver) ;;
                  yv <- parse16 (receiverPublicKeyY receiver) ;;
                  Ok (ec.mkKeyPair None (Some (ec.point xv yv)))) = Throw msg ->
                 msg = "Invalid character").
      { intros msg. unfold parse16.
        destruct (parseAcc (receiverPublicKeyX receiver) 0) as [xv|m] eqn:Hx.
        - rewrite bind_Ok.
          destruct (parseAcc (receiverPublicKeyY receiver) 0) as [yv|m] eqn:Hy.
          + discriminate.
          + apply parseAcc_Throw in Hy. subst m. now intros [= <-].
        - apply parseAcc_Throw in Hx. subst m. now intros [= <-]. }
      split; (split; [intros H; apply Hparse in H; discriminate H | lia]).
Qed.

(** ** Step 3: the shape of the random value *)

(** X3: the random value is the hexadecimal form of the array without its
    leading zero bytes: after [k] zero bytes and a byte that is not zero
    it has two digits for each of the remaining bytes, so a random array
    of 32 bytes that starts with a zero byte gives fewer than 64 digits. *)
Theorem randomValue_strips_zero_bytes (k : nat) (b : byte) (arr : list byte) :
  b <> x00 ->
  randomValue (repeat x00 k ++ b :: arr) = Ok (Buffer.toHex (b :: arr))
  /\ String.length (Buffer.toHex (b :: arr)) = (2 * S (List.length arr))%nat.
Proof.
  intros Hb. split; [|exact (length_toHex (b :: arr))].
  destruct (repeat x00 k ++ b :: arr)%list as [|b' arr'] eqn:Hl;
    [destruct k; discriminate Hl|].
  rewrite randomValue_trimZeroBytes, <- Hl, trimZeroBytes_zero_bytes.
  unfold Buffer.toHex. cbn [fold_right]. now rewrite trimZeroBytes_byte.
Qed.

Lemma randomValue_strips_zero_bytes_witness :
  randomValue (repeat x00 31 ++ [x0d]) = Ok (Buffer.toHex [x0d])
  /\ String.length (Buffer.toHex [x0d]) = (2 * 1)%nat.
Proof.
  apply (randomValue_strips_zero_bytes 31 x0d []). discriminate.
Defined.

(** X4: the random value and the big number the recipient rebuilds from
    it.  A random value has an even number of digits, at least two and at
    most two for each byte of the array, and [BigNumber.from] of the
    prefixed string (line 148) is the big number the sender made from the
    array (line 69). *)
Theorem randomValueBN_round_trip (randomArray : list byte) (r : string) :
  randomValue randomArray = Ok r ->
  BigNumber.from ("0x" ++ r) = BigNumber.fromBytes randomArray
  /\ Nat.even (String.length r) = true
  /\ (2 <= String.length r <= 2 * List.length randomArray)%nat.
Proof.
  destruct randomArray as [|b arr]; [discriminate|].
  rewrite randomValue_trimZeroBytes.
  pose proof (toHex_nonempty b arr) as Hne.
  pose proof (allHex_toHex (b :: arr)) as Hall.
  pose proof (odd_length_toHex (b :: arr)) as Hodd.
  pose proof (length_toHex (b :: arr)) as Hlen.
  unfold BigNumber.fromBytes.
  change (utils.hexlify (b :: arr)) with ("0x" ++ Buffer.toHex (b :: arr)).
  generalize dependent (Buffer.toHex (b :: arr)). intros d Hne Hall Hodd Hlen H.
  assert (Hr : r = BigNumber.trimZeroBytes d) by congruence. subst r. clear H.
  destruct (length_trimZeroBytes d) as [Hle Hpar].
  pose proof (trimZeroBytes_nonempty d Hne) as Hne'.
  assert (Hodd' : Nat.odd (String.length (BigNumber.trimZeroBytes d)) = false)
    by congruence.
  split; [|split].
  - rewrite from_even; [|exact Hne' | now apply allHex_trimZeroBytes | exact Hodd'].
    rewrite trimZeroBytes_idempotent. now rewrite from_even.
  - rewrite <- Nat.negb_odd, Hodd'. reflexivity.
  - split; [|lia].
    destruct (BigNumber.trimZeroBytes d) as [|c1 [|c2 t]];
      [contradiction | discriminate Hodd' | cbn [String.length]; lia].
Qed.

Lemma randomValueBN_round_trip_witness :
  BigNumber.from ("0x" ++ "0d") = BigNumber.fromBytes Examples.randomArray13
  /\ Nat.even (String.length "0d") = true
  /\ (2 <= String.length "0d" <= 2 * List.length Examples.randomArray13)%nat.
Proof.
  apply (randomValueBN_round_trip Examples.randomArray13 "0d"). reflexivity.
Defined.

(** X5: an array of zero bytes is not refused by step 3: its random value
    is ["00"], the sender's multiplication gives the point at infinity, and
    the script stops with the [TypeError] of reading its coordinates, for
    every wallet whose public key decodes. *)
Theorem zero_random_value_fails (receiver : Wallet) (k : nat) (key : ec.KeyPair) :
  receiverPublicKeyEC receiver = Ok key ->
  randomValue (repeat x00 (S k)) = Ok "00"
  /\ stealthAddress receiver "00" = Throw "TypeError: Cannot read properties of null"
  /\ stealthRoundTrip receiver (repeat x00 (S k))
     = Throw "TypeError: Cannot read properties of null".
Proof.
  intros Hkey.
  assert (Hr : randomValue (repeat x00 (S k)) = Ok "00").
  { cbn [repeat]. rewrite randomValue_trimZeroBytes.
    exact (f_equal Ok (trimZeroBytes_all_zero k)). }
  assert (Ha : stealthAddress receiver "00"
               = Throw "TypeError: Cannot read properties of null").
  { unfold stealthAddress, stealthPublicKey, stealthPublicKeyEC.
    rewrite Hkey, bind_Ok. rewrite receiverPublicKeyEC_keyFromPublic in Hkey.
    destruct (keyFromPublic_point _ _ _ Hkey) as [xv [yv [_ [_ ->]]]].
    reflexivity. }
  split; [exact Hr|]. split; [exact Ha|].
  unfold stealthRoundTrip. rewrite Hr, bind_Ok, Ha. reflexivity.
Qed.

Lemma zero_random_value_fails_witness :
  randomValue (repeat x00 32) = Ok "00"
  /\ stealthAddress Examples.receiver10 "00"
     = Throw "TypeError: Cannot read properties of null"
  /\ stealthRoundTrip Examples.receiver10 (repeat x00 32)
     = Throw "TypeError: Cannot read properties of null".
Proof.
  apply (zero_random_value_fails Examples.receiver10 31
           (ec.mkKeyPair None (Some (ec.Affine Points.x10 Points.y10)))).
  vm_compute. reflexivity.
Defined.

(** ** Steps 5 and 6: what is hashed *)

(** X6: the key the sender hashes always has 128 hexadecimal digits, 64
    for each coordinate, and makes a buffer of 64 bytes. *)
Theorem stealthPublicKey_width (receiver : Wallet) (r key : string) :
  stealthPublicKey receiver r = Ok key ->
  String.length key = 128%nat
  /\ allHex key = true
  /\ List.length (Buffer.fromHex key) = 64%nat.
Proof.
  unfold stealthPublicKey. intros H.
  destruct (bind_Ok_inv _ _ _ H) as [P [HP H']].
  apply stealthPublicKeyEC_reduced in HP.
  destruct P as [|x y]; [discriminate H'|]. destruct HP as [Hx Hy].
  cbn [ec.getX ec.getY bind] in H'. injection H' as <-.
  assert (Hlen : String.length (pad32ByteHex (toString16 x) ++ pad32ByteHex (toString16 y))
                 = 128%nat)
    by (rewrite length_append, !length_pad32ByteHex_coordinate by assumption;
        reflexivity).
  assert (Hall : allHex (pad32ByteHex (toString16 x) ++ pad32ByteHex (toString16 y)) = true)
    by (rewrite allHex_append, !allHex_pad32ByteHex by apply allHex_toString16;
        reflexivity).
  split; [exact Hlen|]. split; [exact Hall|].
  rewrite length_fromHex, Hlen by exact Hall. reflexivity.
Qed.

Lemma stealthPublicKey_width_witness :
  String.length (pad32ByteHex (toString16 Points.x130)
                 ++ pad32ByteHex (toString16 Examples.y130)) = 128%nat
  /\ allHex (pad32ByteHex (toString16 Points.x130)
             ++ pad32ByteHex (toString16 Examples.y130)) = true
  /\ List.length (Buffer.fromHex (pad32ByteHex (toString16 Points.x130)
                                  ++ pad32ByteHex (toString16 Examples.y130)))
     = 64%nat.
Proof.
  apply (stealthPublicKey_width Examples.receiver10 "0d"). vm_compute. reflexivity.
Defined.

(** X7: the key the recipient hashes is the two coordinates as
    [toString('hex')] gives them: at most 128 digits, and a buffer of 64
    bytes exactly when both coordinates are [16 ^ 63] or more. *)
Theorem stealthPublicKey2_width (sk : BigNumber.t) (x y : Z) :
  ec.mul ec.g (sliceFrom 2 (BigNumber.toHexString sk)) = Ok (ec.Affine x y) ->
  stealthPublicKey2 sk = Ok (toString16 x ++ toString16 y)
  /\ (String.length (toString16 x ++ toString16 y) <= 128)%nat
  /\ (List.length (Buffer.fromHex (toString16 x ++ toString16 y)) = 64%nat
      <-> 16 ^ 63 <= x /\ 16 ^ 63 <= y).
Proof.
  intros H. destruct (mul_g_reduced _ _ H) as [Hx Hy].
  pose proof (length_coordinate x Hx) as Hlx.
  pose proof (length_coordinate y Hy) as Hly.
  split; [unfold stealthPublicKey2; rewrite H; reflexivity|].
  split; [rewrite length_append; lia|].
  rewrite length_fromHex
    by (rewrite allHex_append, !allHex_toString16; reflexivity).
  rewrite length_append, <- (length_coordinate_full x Hx), <- (length_coordinate_full y Hy).
  split.
  - intros Hdiv.
    assert (128 <= String.length (toString16 x) + String.length (toString16 y))%nat.
    { destruct (Nat.le_gt_cases 128
                  (String.length (toString16 x) + String.length (toString16 y)))
        as [Hge|Hlt]; [exact Hge|].
      assert ((String.length (toString16 x) + String.length (toString16 y)) / 2 < 64)%nat
        by (apply Nat.Div0.div_lt_upper_bound; lia).
      lia. }
    lia.
  - intros [-> ->]. reflexivity.
Qed.

Lemma stealthPublicKey2_width_witness :
  stealthPublicKey2 (BigNumber.mk "0x82")
  = Ok (toString16 Points.x130 ++ toString16 Examples.y130)
  /\ (String.length (toString16 Points.x130 ++ toString16 Examples.y130) <= 128)%nat
  /\ (List.length (Buffer.fromHex (toString16 Points.x130 ++ toString16 Examples.y130))
      = 64%nat
      <-> 16 ^ 63 <= Points.x130 /\ 16 ^ 63 <= Examples.y130).
Proof.
  apply (stealthPublicKey2_width (BigNumber.mk "0x82")). vm_compute. reflexivity.
Defined.

(** X8: when the two sides reach the same point, the key the sender
    hashes and the key the recipient hashes are the same string exactly
    when both coordinates are [16 ^ 63] or more, and then the two addresses
    are the same. *)
Theorem hashed_keys_agree_iff
  (receiver : Wallet) (r : string) (sk : BigNumber.t) (x y : Z) :
  stealthPublicKeyEC receiver r = Ok (ec.Affine x y) ->
  ec.mul ec.g (sliceFrom 2 (BigNumber.toHexString sk)) = Ok (ec.Affine x y) ->
  (stealthPublicKey receiver r = stealthPublicKey2 sk
   <-> 16 ^ 63 <= x /\ 16 ^ 63 <= y)
  /\ (16 ^ 63 <= x -> 16 ^ 63 <= y ->
      stealthAddress receiver r = stealthAddress2 sk).
Proof.
  intros Hsender Hrecipient.
  destruct (mul_g_reduced _ _ Hrecipient) as [Hx Hy].
  assert (H5 : stealthPublicKey receiver r
               = Ok (pad32ByteHex (toString16 x) ++ pad32ByteHex (toString16 y)))
    by (unfold stealthPublicKey; rewrite Hsender; reflexivity).
  assert (H6 : stealthPublicKey2 sk = Ok (toString16 x ++ toString16 y))
    by (unfold stealthPublicKey2; rewrite Hrecipient; reflexivity).
  assert (Hiff : stealthPublicKey receiver r = stealthPublicKey2 sk
                 <-> 16 ^ 63 <= x /\ 16 ^ 63 <= y).
  { rewrite H5, H6, <- (length_coordinate_full x Hx), <- (length_coordinate_full y Hy).
    rewrite <- (keys_equal_iff_full_width x y Hx Hy).
    split; [intros [= E]; exact E | intros ->; reflexivity]. }
  split; [exact Hiff|].
  intros Hx63 Hy63. unfold stealthAddress, stealthAddress2.
  rewrite (proj2 Hiff (conj Hx63 Hy63)). reflexivity.
Qed.

Lemma hashed_keys_agree_iff_witness :
  stealthAddress Examples.receiver10 "02" = stealthAddress2 (BigNumber.mk "0x14").
Proof.
  apply (hashed_keys_agree_iff Examples.receiver10 "02" (BigNumber.mk "0x14")
           Points.x20 Points.y20).
  - vm_compute. reflexivity.
  - vm_compute. reflexivity.
  - vm_compute. discriminate.
  - vm_compute. discriminate.
Defined.

(** X9: the sender's key determines the stealth point: two runs of step 5
    that hash the same key have multiplied to the same point. *)
Theorem stealthPublicKey_determines_point
  (receiver receiver' : Wallet) (r r' : string) (P P' : ec.Point) :
  stealthPublicKeyEC receiver r = Ok P ->
  stealthPublicKeyEC receiver' r' = Ok P' ->
  stealthPublicKey receiver r = stealthPublicKey receiver' r' ->
  P = P'.
Proof.
  intros HP HP'. unfold stealthPublicKey. rewrite HP, HP', !bind_Ok.
  apply stealthPublicKeyEC_reduced in HP. apply stealthPublicKeyEC_reduced in HP'.
  destruct P as [|x y], P' as [|x' y']; cbn [ec.getX ec.getY bind];
    try reflexivity; try discriminate.
  destruct HP as [Hx Hy], HP' as [Hx' Hy']. intros [= E].
  apply append_inj_length in E;
    [|rewrite !length_pad32ByteHex_coordinate by assumption; reflexivity].
  destruct E as [Ex Ey].
  apply (f_equal parse16) in Ex. apply (f_equal parse16) in Ey.
  rewrite !parse16_pad32ByteHex, !parse16_toString16 in Ex, Ey by lia.
  congruence.
Qed.

Lemma stealthPublicKey_determines_point_witness :
  ec.Affine Points.x130 Examples.y130 = ec.Affine Points.x130 Examples.y130.
Proof.
  apply (stealthPublicKey_determines_point Examples.receiver10 Examples.receiver10
           "0d" "00d").
  - vm_compute. reflexivity.
  - vm_compute. reflexivity.
  - vm_compute. reflexivity.
Defined.

(** X10: an address is ["0x"] and the 40 hexadecimal digits of the last 20
    bytes of the Keccak digest of the key's buffer, whatever the key. *)
Theorem addressOfKey_format (key : string) :
  addressOfKey key
  = "0x" ++ Buffer.toHex (skipn 12 (Keccak.digest (Buffer.fromHex key)))
  /\ String.length (addressOfKey key) = 42%nat
  /\ allHex (sliceFrom 2 (addressOfKey key)) = true.
Proof.
  assert (E : addressOfKey key
              = "0x" ++ Buffer.toHex (skipn 12 (Keccak.digest (Buffer.fromHex key)))).
  { unfold addressOfKey, Keccak.keccak256, Buffer.sliceLast. cbv zeta.
    rewrite fromHex_toHex, length_digest. reflexivity. }
  split; [exact E|]. rewrite E. split.
  - rewrite length_append, length_toHex, length_skipn, length_digest. reflexivity.
  - change (sliceFrom 2 ("0x" ++ ?s)) with s. apply allHex_toHex.
Qed.

(** ** Step 6: the check of the keys and the address *)

(** X11: the check of lines 131-143 passes exactly when the published key,
    after its prefix of 4 characters, is the 64 digits of X followed by the
    64 digits of Y of the public point of the private key. *)
Theorem checkPublicKeys_accepts_iff (receiver : Wallet) (d x y : Z) :
  parse16 (sliceFrom 2 (privateKey receiver)) = Ok d ->
  ec.mulBN ec.g (d mod ec.n) = ec.Affine x y ->
  checkPublicKeys receiver = Ok tt
  <-> receiverPublicKey receiver
      = pad32ByteHex (toString16 x) ++ pad32ByteHex (toString16 y).
Proof.
  intros Hd HP. rewrite (checkPublicKeys_unfold receiver d x y Hd HP).
  pose proof (mulBN_reduced ec.g (d mod ec.n) g_reduced) as Hred.
  rewrite HP in Hred. destruct Hred as [Hx Hy].
  pose proof (length_pad32ByteHex_coordinate x Hx) as Hlx.
  split.
  - destruct (String.eqb_spec (receiverPublicKeyX receiver) (pad32ByteHex (toString16 x)))
      as [HX|HX]; [|discriminate].
    destruct (String.eqb_spec (receiverPublicKeyY receiver) (pad32ByteHex (toString16 y)))
      as [HY|HY]; [|discriminate].
    intros _. rewrite <- HX, <- HY. symmetry. apply sliceTo_sliceFrom.
  - intros Hkey. unfold receiverPublicKeyX, receiverPublicKeyY. rewrite Hkey.
    pose proof (sliceTo_append (pad32ByteHex (toString16 x))
                  (pad32ByteHex (toString16 y))) as EX.
    pose proof (sliceFrom_append (pad32ByteHex (toString16 x))
                  (pad32ByteHex (toString16 y))) as EY.
    rewrite Hlx in EX, EY. rewrite EX, EY, !String.eqb_refl. reflexivity.
Qed.

Lemma checkPublicKeys_accepts_iff_witness :
  checkPublicKeys Examples.receiver10 = Ok tt
  <-> receiverPublicKey Examples.receiver10
      = pad32ByteHex (toString16 Points.x10) ++ pad32ByteHex (toString16 Points.y10).
Proof.
  apply (checkPublicKeys_accepts_iff Examples.receiver10 10).
  - reflexivity.
  - vm_compute. reflexivity.
Defined.

(** X12: step 6 as a whole, for a wallet that passes the check of the
    keys: the private key of the stealth address is the product of the
    private key (reduced modulo [n] by [keyFromPrivate]) and the random
    value, modulo [n]; the address is the hash of the coordinates of that
    multiple of the generator, as [toString('hex')] gives them; and when the
    product is a multiple of [n] the step stops with a [TypeError]. *)
Theorem step6_of_scalars (receiver : Wallet) (r : string) (d rv : Z) :
  checkPublicKeys receiver = Ok tt ->
  parse16 (sliceFrom 2 (privateKey receiver)) = Ok d ->
  r <> "" ->
  parse16 r = Ok rv ->
  exists key,
    stealthPrivateKey receiver r = Ok key
    /\ BigNumber.toBN key = Ok ((d mod ec.n * rv) mod ec.n)
    /\ (forall x2 y2,
          ec.mulBN ec.g ((d mod ec.n * rv) mod ec.n) = ec.Affine x2 y2 ->
          step6 receiver r
          = Ok (key, addressOfKey (toString16 x2 ++ toString16 y2)))
    /\ (ec.mulBN ec.g ((d mod ec.n * rv) mod ec.n) = ec.Infinity ->
        step6 receiver r = Throw "TypeError: Cannot read properties of null").
Proof.
  intros Hcheck Hd Hne Hr.
  destruct (stealthPrivateKey_value receiver r d rv Hd Hne Hr) as [t [Hkey Ht]].
  exists (BigNumber.mk ("0x" ++ t)). split; [exact Hkey|]. split; [exact Ht|].
  assert (H6 : forall P, ec.mulBN ec.g ((d mod ec.n * rv) mod ec.n) = P ->
               step6 receiver r
               = (x <- ec.getX P ;; y <- ec.getY P ;;
                  Ok (BigNumber.mk ("0x" ++ t), addressOfKey (toString16 x ++ toString16 y)))).
  { intros P HP. unfold step6. rewrite Hcheck, bind_Ok, Hkey, bind_Ok.
    unfold stealthAddress2, stealthPublicKey2, ec.mul.
    change (sliceFrom 2 (BigNumber.toHexString (BigNumber.mk ("0x" ++ t)))) with t.
    rewrite Ht, !bind_Ok, HP. destruct P; reflexivity. }
  split.
  - intros x2 y2 HP. now rewrite (H6 _ HP).
  - intros HP. now rewrite (H6 _ HP).
Qed.

(** The private key 10 and the random value 13: the address is the hash of
    the coordinates of [130 G], 64 and 62 digits. *)
Lemma step6_of_scalars_witness :
  exists key,
    stealthPrivateKey Examples.receiver10 "0d" = Ok key
    /\ BigNumber.toBN key = Ok ((10 mod ec.n * 13) mod ec.n)
    /\ step6 Examples.receiver10 "0d"
       = Ok (key, addressOfKey (toString16 Points.x130 ++ toString16 Examples.y130)).
Proof.
  destruct (step6_of_scalars Examples.receiver10 "0d" 10 13)
    as [key [Hkey [Hvalue [Haffine _]]]].
  - vm_compute. reflexivity.
  - reflexivity.
  - discriminate.
  - reflexivity.
  - exists key. split; [exact Hkey|]. split; [exact Hvalue|].
    apply Haffine. vm_compute. reflexivity.
Defined.

(** X13: step 5 as a whole, for a public key of more than 68 characters
    whose coordinates are hexadecimal and satisfy the curve equation: the
    address is the hash of the padded coordinates of the random multiple of
    the point of the two coordinates, and when that multiple is the point
    at infinity the step stops with a [TypeError]. *)
Theorem stealthAddress_of_scalars (receiver : Wallet) (r : string) (x y rv : Z) :
  (68 < String.length (publicKey receiver))%nat ->
  parse16 (receiverPublicKeyX receiver) = Ok x ->
  parse16 (receiverPublicKeyY receiver) = Ok y ->
  ec.validate (ec.point x y) = true ->
  parse16 r = Ok rv ->
  (forall sx sy,
     ec.mulBN (ec.point x y) rv = ec.Affine sx sy ->
     stealthAddress receiver r
     = Ok (addressOfKey (pad32ByteHex (toString16 sx) ++ pad32ByteHex (toString16 sy))))
  /\ (ec.mulBN (ec.point x y) rv = ec.Infinity ->
      stealthAddress receiver r = Throw "TypeError: Cannot read properties of null").
Proof.
  intros Hlen Hx Hy _ Hr.
  pose proof (length_sliceTo 64 (receiverPublicKey receiver)) as HX.
  pose proof (length_sliceFrom 64 (receiverPublicKey receiver)) as HY.
  pose proof (length_sliceFrom 4 (publicKey receiver)) as HXY.
  fold (receiverPublicKey receiver) in HXY.
  fold (receiverPublicKeyX receiver) in HX. fold (receiverPublicKeyY receiver) in HY.
  assert (H5 : forall P, ec.mulBN (ec.point x y) rv = P ->
               stealthAddress receiver r
               = (sx <- ec.getX P ;; sy <- ec.getY P ;;
                  Ok (addressOfKey (pad32ByteHex (toString16 sx)
                                    ++ pad32ByteHex (toString16 sy))))).
  { intros P HP. unfold stealthAddress, stealthPublicKey, stealthPublicKeyEC.
    rewrite receiverPublicKeyEC_keyFromPublic. unfold ec.keyFromPublic, ec.mul.
    rewrite !nonempty_not_eqb by lia. cbn [andb orb].
    rewrite Hx, bind_Ok, Hy, !bind_Ok. cbn [ec.getPublic ec.pub].
    rewrite bind_Ok, Hr, !bind_Ok, HP. destruct P; reflexivity. }
  split.
  - intros sx sy HP. now rewrite (H5 _ HP).
  - intros HP. now rewrite (H5 _ HP).
Qed.

(** The public key [10 G] and the random value 13: the address is the hash
    of the padded coordinates of [130 G]. *)
Lemma stealthAddress_of_scalars_witness :
  stealthAddress Examples.receiver10 "0d"
  = Ok (addressOfKey (pad32ByteHex (toString16 Points.x130)
                      ++ pad32ByteHex (toString16 Examples.y130))).
Proof.
  apply (stealthAddress_of_scalars Examples.receiver10 "0d" Points.x10 Points.y10 13).
  - vm_compute. lia.
  - vm_compute. reflexivity.
  - vm_compute. reflexivity.
  - vm_compute. reflexivity.
  - reflexivity.
  - vm_compute. reflexivity.
Defined.

(** X14: the string of the private key of the stealth address is ["0x"]
    and an even number of digits, 64 at most; it has the 64 digits of a key
    of 32 bytes exactly when the key is [16 ^ 62] or more, and is shorter
    for a smaller key. *)
Theorem stealthPrivateKey_width (receiver : Wallet) (r : string) (d rv : Z) :
  parse16 (sliceFrom 2 (privateKey receiver)) = Ok d ->
  r <> "" ->
  parse16 r = Ok rv ->
  exists key,
    stealthPrivateKey receiver r = Ok key
    /\ (String.length (BigNumber.toHexString key) <= 66)%nat
    /\ Nat.even (String.length (BigNumber.toHexString key)) = true
    /\ (String.length (BigNumber.toHexString key) = 66%nat
        <-> 16 ^ 62 <= (d mod ec.n * rv) mod ec.n).
Proof.
  intros Hd Hne Hr.
  rewrite (stealthPrivateKey_toBigNumber receiver r d rv Hd Hne Hr).
  pose proof (product_mod_n_range d rv) as Hrange.
  set (v := (d mod ec.n * rv) mod ec.n) in *.
  destruct (toBigNumber_shape v (proj1 Hrange)) as [t [-> [Hparse [Hodd Hlen]]]].
  exists (BigNumber.mk ("0x" ++ t)). split; [reflexivity|].
  change (String.length (BigNumber.toHexString (BigNumber.mk ("0x" ++ t))))
    with (S (S (String.length t))).
  assert (H64 : (hexLen v <= 64)%nat).
  { apply hexLen_bound; [lia|]. eapply Z.lt_trans; [apply Hrange | reflexivity]. }
  assert (Heven : Nat.even (String.length t) = true)
    by (rewrite <- Nat.negb_odd, Hodd; reflexivity).
  assert (Hle : (String.length t <= 64)%nat).
  { destruct (Nat.eq_dec (String.length t) 65) as [E|]; [|lia].
    rewrite E in Hodd. discriminate Hodd. }
  split; [lia|]. split; [exact Heven|]. split.
  - intros H66. destruct (Z.lt_ge_cases v (16 ^ 62)) as [Hlt|Hge]; [|exact Hge].
    assert (hexLen v <= 62)%nat by (apply hexLen_bound; [lia | exact Hlt]). lia.
  - intros Hge. pose proof (parse16_bound t v Hparse) as Hbound.
    assert (Hlt : 62 < Z.of_nat (String.length t)).
    { apply (Z.pow_lt_mono_r_iff 16); lia. }
    destruct (Nat.eq_dec (String.length t) 63) as [E|]; [|lia].
    rewrite E in Hodd. discriminate Hodd.
Qed.

Lemma stealthPrivateKey_width_witness :
  exists key,
    stealthPrivateKey Examples.receiver10 "0d" = Ok key
    /\ (String.length (BigNumber.toHexString key) <= 66)%nat
    /\ Nat.even (String.length (BigNumber.toHexString key)) = true
    /\ (String.length (BigNumber.toHexString key) = 66%nat
        <-> 16 ^ 62 <= (10 mod ec.n * 13) mod ec.n).
Proof.
  apply (stealthPrivateKey_width Examples.receiver10 "0d" 10 13).
  - reflexivity.
  - discriminate.
  - reflexivity.
Defined.

(** ** The script as a whole *)

Lemma toBigNumber_width (v : Z) (key : BigNumber.t) :
  0 <= v < ec.n ->
  BigNumber.toBigNumber v = Ok key ->
  String.length (BigNumber.toHexString key) = 66%nat <-> 16 ^ 62 <= v.
Proof.
  intros Hrange Hkey.
  destruct (toBigNumber_shape v (proj1 Hrange)) as [t [Ht [Hparse [Hodd Hlen]]]].
  assert (key = BigNumber.mk ("0x" ++ t)) by congruence. subst key.
  change (String.length (BigNumber.toHexString (BigNumber.mk ("0x" ++ t))))
    with (S (S (String.length t))).
  assert (H64 : (hexLen v <= 64)%nat).
  { apply hexLen_bound; [lia|]. eapply Z.lt_trans; [apply Hrange | reflexivity]. }
  split.
  - intros H66. destruct (Z.lt_ge_cases v (16 ^ 62)) as [Hlt|Hge]; [|exact Hge].
    assert (hexLen v <= 62)%nat by (apply hexLen_bound; [lia | exact Hlt]). lia.
  - intros Hge. pose proof (parse16_bound t v Hparse) as Hbound.
    assert (Hlt : 62 < Z.of_nat (String.length t)).
    { apply (Z.pow_lt_mono_r_iff 16); lia. }
    destruct (Nat.eq_dec (String.length t) 63) as [E|];
      [rewrite E in Hodd; discriminate Hodd|].
    destruct (Nat.eq_dec (String.length t) 65) as [E|];
      [rewrite E in Hodd; discriminate Hodd|].
    lia.
Qed.

Lemma randomValue_nonempty (randomArray : list byte) (r : string) :
  randomValue randomArray = Ok r -> r <> "".
Proof.
  destruct randomArray as [|b arr]; [discriminate|].
  rewrite randomValue_trimZeroBytes. intros H.
  assert (E : r = BigNumber.trimZeroBytes (Buffer.toHex (b :: arr))) by congruence.
  rewrite E. apply trimZeroBytes_nonempty, toHex_nonempty.
Qed.

Lemma step6_stealthPrivateKey
  (receiver : Wallet) (r address2 : string) (key : BigNumber.t) :
  step6 receiver r = Ok (key, address2) -> stealthPrivateKey receiver r = Ok key.
Proof.
  unfold step6. intros H.
  destruct (bind_Ok_inv _ _ _ H) as [u [_ H1]].
  destruct (bind_Ok_inv _ _ _ H1) as [k [Hk H2]].
  destruct (bind_Ok_inv _ _ _ H2) as [a2 [_ H3]]. congruence.
Qed.

(** X15: the end of the script, lines 177-183, once step 5 and step 6
    have given their addresses.  A private key of the stealth address
    below [16 ^ 62] is not 32 bytes long and the script stops with "invalid
    private key", whether the two addresses agree or not; for a larger key
    the script stops with "Stealth addresses do not match" when they
    differ and completes when they are the same. *)
Theorem stealthRoundTrip_end
  (receiver : Wallet) (randomArray : list byte) (r address address2 : string)
  (key : BigNumber.t) (d rv : Z) :
  randomValue randomArray = Ok r ->
  stealthAddress receiver r = Ok address ->
  step6 receiver r = Ok (key, address2) ->
  parse16 (sliceFrom 2 (privateKey receiver)) = Ok d ->
  parse16 r = Ok rv ->
  ((d mod ec.n * rv) mod ec.n < 16 ^ 62 ->
   stealthRoundTrip receiver randomArray = Throw "invalid private key")
  /\ (16 ^ 62 <= (d mod ec.n * rv) mod ec.n -> address <> address2 ->
      stealthRoundTrip receiver randomArray = Throw "Stealth addresses do not match")
  /\ (16 ^ 62 <= (d mod ec.n * rv) mod ec.n -> address = address2 ->
      stealthRoundTrip receiver randomArray = Ok (address, key)).
Proof.
  intros Hr H5 H6 Hd Hrv.
  pose proof (step6_stealthPrivateKey _ _ _ _ H6) as Hkey.
  rewrite (stealthPrivateKey_toBigNumber receiver r d rv Hd
             (randomValue_nonempty _ _ Hr) Hrv) in Hkey.
  pose proof (toBigNumber_width _ key (product_mod_n_range d rv) Hkey) as Hwidth.
  unfold stealthRoundTrip.
  rewrite Hr, bind_Ok, H5, bind_Ok, H6, bind_Ok.
  unfold stealthWallet, checkStealthAddresses. cbv zeta.
  split; [|split].
  - intros Hlt.
    destruct (Nat.eqb_spec (String.length (BigNumber.toHexString key)) 66) as [E|E];
      [apply Hwidth in E; lia | reflexivity].
  - intros Hge Hneq. rewrite (proj2 Hwidth Hge).
    apply String.eqb_neq in Hneq. cbn [Nat.eqb negb]. rewrite bind_Ok, Hneq.
    reflexivity.
  - intros Hge ->. rewrite (proj2 Hwidth Hge).
    cbn [Nat.eqb negb]. rewrite bind_Ok, String.eqb_refl. reflexivity.
Qed.

(** The private key 10 and the random value 13: the key of the stealth
    address is 130, and line 177 refuses it. *)
Lemma stealthRoundTrip_end_witness :
  stealthRoundTrip Examples.receiver10 Examples.randomArray13
  = Throw "invalid private key".
Proof.
  apply (stealthRoundTrip_end Examples.receiver10 Examples.randomArray13 "0d"
           (addressOfKey (pad32ByteHex (toString16 Points.x130)
                          ++ pad32ByteHex (toString16 Examples.y130)))
           (addressOfKey (toString16 Points.x130 ++ toString16 Examples.y130))
           (BigNumber.mk "0x82") 10 13).
  - vm_compute. reflexivity.
  - vm_compute. reflexivity.
  - vm_compute. reflexivity.
  - reflexivity.
  - reflexivity.
  - vm_compute. reflexivity.
Defined.
